(** * RTL-SDR RF watcher: a shallow embedding of [rf_watch_rtlsdr.py]

    The watcher scans radio bands with [rtl_power], parses the CSV line the
    tool prints, flags the bins that rise above the median noise floor and
    speaks a rate-limited alert.  This file embeds the parser ([scan_band]),
    the peak detector ([detect_peaks]), the sort done by the watch loop, the
    alert dispatcher ([speak]) and the listener ([listen_to_frequency]) and
    proves the properties the specification states about them.

    Numbers are Python floats, that is IEEE 754 binary64 values: they are
    modelled by Rocq's primitive floats, whose operations are the same
    binary64 operations.  Text is modelled by [string] (one [ascii] per
    character); the character classes below follow Python on the ASCII
    range and treat every character above 127 as an ordinary one.

    Raising and catching is explicit: a function that can raise returns a
    sum.  What the script prints is left out, except in [speak], whose
    output the specification speaks of.  The outside world enters as
    arguments: the result of running [rtl_power], the reading of the
    clock, the fate of the espeak process, and for the listener a schedule
    of what happens around it. *)

From Stdlib Require Import ZArith List String Ascii Bool Lia.
From Stdlib Require Import Sorting.Sorted Sorting.Permutation.
From Stdlib Require Import Floats.
Import ListNotations.

Local Open Scope string_scope.
Local Open Scope list_scope.
Local Open Scope nat_scope.

(** ** Exceptions

    Python code either returns a value or raises.  A computation is a sum:
    [inl e] is "raised [e]", [inr v] is "returned [v]". *)

Module Exc.

Inductive exn : Type :=
  | ValueError
  | IndexError
  | StatisticsError
  | FileNotFoundError
  | ProcessLookupError.

Definition M (A : Type) : Type := (exn + A)%type.

Definition ret {A : Type} (a : A) : M A := inr a.

Definition raise {A : Type} (e : exn) : M A := inl e.

Definition bind {A B : Type} (m : M A) (k : A -> M B) : M B :=
  match m with
  | inl e => inl e
  | inr a => k a
  end.

Definition exn_eqb (a b : exn) : bool :=
  match a, b with
  | ValueError, ValueError
  | IndexError, IndexError
  | StatisticsError, StatisticsError
  | FileNotFoundError, FileNotFoundError
  | ProcessLookupError, ProcessLookupError => true
  | _, _ => false
  end.

(** [try: m  except e: h] *)
Definition try_except {A : Type} (m : M A) (e : exn) (h : M A) : M A :=
  match m with
  | inl e' => if exn_eqb e' e then h else inl e'
  | inr a => inr a
  end.

(** Python's [xs[i]] for a non-negative [i]. *)
Definition index {A : Type} (xs : list A) (i : nat) : M A :=
  match nth_error xs i with
  | Some a => ret a
  | None => raise IndexError
  end.

End Exc.

Import Exc.

Declare Scope exc_scope.
Delimit Scope exc_scope with exc.
Notation "x <- m ;; k" := (bind m (fun x => k))
  (at level 61, m at next level, right associativity) : exc_scope.
Notation "' p <- m ;; k" := (bind m (fun p => k))
  (at level 61, p pattern, m at next level, right associativity) : exc_scope.

(** ** Python strings *)

Module PyStr.

(** [str.isspace] on one ASCII character: tab, LF, VT, FF, CR, the four
    separators FS GS RS US and the space. *)
Definition is_space (c : ascii) : bool :=
  let n := nat_of_ascii c in
  ((9 <=? n) && (n <=? 13)) || ((28 <=? n) && (n <=? 32)).

Fixpoint lstrip (s : string) : string :=
  match s with
  | String c s' => if is_space c then lstrip s' else s
  | EmptyString => EmptyString
  end.

(** Removal of trailing white space: a character is kept when something
    that is kept follows it, or when it is not white space. *)
Fixpoint rstrip (s : string) : string :=
  match s with
  | EmptyString => EmptyString
  | String c s' =>
      match rstrip s' with
      | EmptyString => if is_space c then EmptyString else String c EmptyString
      | r => String c r
      end
  end.

(** [s.strip()] *)
Definition strip (s : string) : string := rstrip (lstrip s).

(** [s.startswith(p)] *)
Definition startswith (p s : string) : bool := String.prefix p s.

(** [c in s] for a single character [c]. *)
Fixpoint contains (c : ascii) (s : string) : bool :=
  match s with
  | EmptyString => false
  | String d s' => Ascii.eqb c d || contains c s'
  end.

(** [s.split(c)] for a single-character separator: never empty, one more
    field than there are separators. *)
Fixpoint split (c : ascii) (s : string) : list string :=
  match s with
  | EmptyString => [EmptyString]
  | String d s' =>
      if Ascii.eqb c d then EmptyString :: split c s'
      else match split c s' with
           | f :: fs => String d f :: fs
           | [] => [String d EmptyString]
           end
  end.

(** Line boundaries of [str.splitlines] on the ASCII range other than the
    pair CR LF: LF, VT, FF, CR, FS, GS, RS. *)
Definition is_linebreak (c : ascii) : bool :=
  let n := nat_of_ascii c in
  ((10 <=? n) && (n <=? 13)) || ((28 <=? n) && (n <=? 30)).

Definition is_cr (c : ascii) : bool := nat_of_ascii c =? 13.
Definition is_lf (c : ascii) : bool := nat_of_ascii c =? 10.

(** [splitlines_from cur s]: the lines of [s], where [cur] is the text of
    the current line read so far.  A final line without a line break is
    kept when it is not empty; CR LF is one boundary. *)
Fixpoint splitlines_from (cur : string) (s : string) : list string :=
  match s with
  | EmptyString =>
      match cur with
      | EmptyString => []
      | _ => [cur]
      end
  | String c s' =>
      if is_linebreak c then
        match s' with
        | String d s'' =>
            if is_cr c && is_lf d then cur :: splitlines_from EmptyString s''
            else cur :: splitlines_from EmptyString s'
        | EmptyString => [cur]
        end
      else splitlines_from (String.append cur (String c EmptyString)) s'
  end.

(** [s.splitlines()] *)
Definition splitlines (s : string) : list string :=
  splitlines_from EmptyString s.

End PyStr.

(** ** Python floats *)

Module PyFloat.

(** [float(i)] for a Python integer: the nearest binary64 value, exact up
    to 2^53. *)
Definition of_Z (z : Z) : float :=
  SF2Prim (binary_normalize prec emax z 0%Z false).

Definition of_nat (n : nat) : float := of_Z (Z.of_nat n).

(** The binary64 value nearest to [(-1)^neg * m * 10^e] (ties to even),
    as Python's correctly rounded string conversion returns it.  For a
    negative [e] the quotient [m * 2^s / 10^(-e)] is computed with more
    than 53 bits and the remainder decides the rounding. *)
Definition of_decimal (neg : bool) (m : Z) (e : Z) : float :=
  match m with
  | Zpos p =>
      if (0 <=? e)%Z then
        SF2Prim (binary_normalize prec emax (cond_Zopp neg (m * 10 ^ e)) 0%Z false)
      else
        let d := (10 ^ (- e))%Z in
        let s := Z.max 0 (Zdigits2 d + 60 - Zdigits2 m)%Z in
        let '(q, r) := Z.div_eucl (Z.shiftl m s) d in
        SF2Prim (binary_round_aux prec emax neg q (- s)%Z (new_location d r))
  | _ => if neg then neg_zero else zero
  end.

Definition digit_of (c : ascii) : option Z :=
  let n := nat_of_ascii c in
  if (48 <=? n) && (n <=? 57) then Some (Z.of_nat (n - 48)) else None.

Definition is_underscore (c : ascii) : bool := nat_of_ascii c =? 95.
Definition is_dot (c : ascii) : bool := nat_of_ascii c =? 46.
Definition is_plus (c : ascii) : bool := nat_of_ascii c =? 43.
Definition is_minus (c : ascii) : bool := nat_of_ascii c =? 45.
Definition is_e (c : ascii) : bool :=
  (nat_of_ascii c =? 101) || (nat_of_ascii c =? 69).

(** The rest of a [digitpart] after its first digit: digits, each
    optionally preceded by one underscore.  Returns the value read, the
    number of digits and the text left. *)
Fixpoint digits_tail (acc : Z) (cnt : nat) (s : string) : Z * nat * string :=
  match s with
  | EmptyString => (acc, cnt, s)
  | String c s' =>
      match digit_of c with
      | Some d => digits_tail (10 * acc + d)%Z (S cnt) s'
      | None =>
          if is_underscore c then
            match s' with
            | String c2 s'' =>
                match digit_of c2 with
                | Some d => digits_tail (10 * acc + d)%Z (S cnt) s''
                | None => (acc, cnt, s)
                end
            | EmptyString => (acc, cnt, s)
            end
          else (acc, cnt, s)
      end
  end.

(** [digitpart ::= digit (["_"] digit)*] *)
Definition digitpart (s : string) : option (Z * nat * string) :=
  match s with
  | String c s' =>
      match digit_of c with
      | Some d => Some (digits_tail d 1 s')
      | None => None
      end
  | EmptyString => None
  end.

(** [number ::= [digitpart] "." digitpart | digitpart ["."]]: the decimal
    mantissa, the power of ten and the text left. *)
Definition parse_number (s : string) : option (Z * Z * string) :=
  match digitpart s with
  | Some (ip, _, rest) =>
      match rest with
      | String c rest' =>
          if is_dot c then
            match digitpart rest' with
            | Some (fp, nf, rest'') =>
                Some ((ip * 10 ^ Z.of_nat nf + fp)%Z, (- Z.of_nat nf)%Z, rest'')
            | None => Some (ip, 0%Z, rest')
            end
          else Some (ip, 0%Z, rest)
      | EmptyString => Some (ip, 0%Z, rest)
      end
  | None =>
      match s with
      | String c rest' =>
          if is_dot c then
            match digitpart rest' with
            | Some (fp, nf, rest'') => Some (fp, (- Z.of_nat nf)%Z, rest'')
            | None => None
            end
          else None
      | EmptyString => None
      end
  end.

(** [sign ::= "+" | "-"], optional: whether it is a minus, and the rest. *)
Definition parse_sign (s : string) : bool * string :=
  match s with
  | String c s' =>
      if is_minus c then (true, s')
      else if is_plus c then (false, s')
      else (false, s)
  | EmptyString => (false, s)
  end.

(** [exponent ::= ("e" | "E") [sign] digitpart] *)
Definition parse_exponent (s : string) : option (Z * string) :=
  match s with
  | String c s' =>
      if is_e c then
        let '(neg, s'') := parse_sign s' in
        match digitpart s'' with
        | Some (v, _, rest) => Some (cond_Zopp neg v, rest)
        | None => None
        end
      else None
  | EmptyString => None
  end.

Definition lower_ascii (c : ascii) : ascii :=
  let n := nat_of_ascii c in
  if (65 <=? n) && (n <=? 90) then ascii_of_nat (n + 32) else c.

Fixpoint lower (s : string) : string :=
  match s with
  | EmptyString => EmptyString
  | String c s' => String (lower_ascii c) (lower s')
  end.

(** Python's [float(s)] on a string: white space around the text is
    dropped; then an optional sign and either a decimal number with an
    optional exponent, or [inf], [infinity] or [nan] in any letter case.
    Anything else raises [ValueError]. *)
Definition py_float (s : string) : M float :=
  let '(neg, body) := parse_sign (PyStr.strip s) in
  let low := lower body in
  if String.eqb low "inf" || String.eqb low "infinity" then
    ret (if neg then neg_infinity else infinity)
  else if String.eqb low "nan" then ret nan
  else
    match parse_number body with
    | Some (m, e, rest) =>
        match rest with
        | EmptyString => ret (of_decimal neg m e)
        | _ =>
            match parse_exponent rest with
            | Some (x, EmptyString) => ret (of_decimal neg m (e + x)%Z)
            | _ => raise ValueError
            end
        end
    | None => raise ValueError
    end.

End PyFloat.

Import PyFloat.

(** ** The standard-library functions the watcher calls *)

Module PyStd.

(** [sorted(data)] on floats: Python's sort is stable and compares with
    [<] only.  [insort x l] puts [x] in front of the first element that is
    not smaller than [x], so [x], which precedes the elements of [l] in the
    input, also precedes its equals in the output.  On numbers this is the
    one stable ascending arrangement ([sorted_perm], [sorted_ordered]);
    where the data has a NaN, which compares false with everything, the
    arrangement is the one this insertion gives. *)
Fixpoint insort (x : float) (l : list float) : list float :=
  match l with
  | [] => [x]
  | y :: l' => if (y <? x)%float then y :: insort x l' else x :: l
  end.

Definition sorted (data : list float) : list float :=
  fold_right insort [] data.

(** [statistics.median(data)]: the middle value of the sorted data, or the
    mean of the two middle values; no median of no data. *)
Definition median (data : list float) : M float :=
  let data := sorted data in
  let n := List.length data in
  if n =? 0 then raise StatisticsError
  else if n mod 2 =? 1 then index data (n / 2)
  else
    let i := n / 2 in
    (a <- index data (i - 1) ;;
     b <- index data i ;;
     ret ((a + b) / 2)%float)%exc.

(** [max(xs)]: the first of the largest values; [ValueError] on no
    values. *)
Definition max (xs : list float) : M float :=
  match xs with
  | [] => raise ValueError
  | x :: xs' =>
      ret (fold_left (fun m y => if (m <? y)%float then y else m) xs' x)
  end.

(** [enumerate(xs)] *)
Definition enumerate {A : Type} (xs : list A) : list (nat * A) :=
  combine (seq 0 (List.length xs)) xs.

(** [xs[-1]] *)
Definition last_item {A : Type} (xs : list A) : M A :=
  match rev xs with
  | x :: _ => ret x
  | [] => raise IndexError
  end.

End PyStd.

(** ** The watcher *)

Module Watcher.

(** The configuration block at the top of the script: the constants the
    modelled functions read.  [TTS_COOLDOWN_SEC] and [LISTEN_TIME_SEC] are
    integers in the script and only ever compared with floats; they are
    kept as the floats they compare as. *)
Record Config : Type := {
  THRESHOLD_ABOVE_MEDIAN_DB : float;
  ENABLE_TTS_ALERTS : bool;
  TTS_COOLDOWN_SEC : float;
  LISTEN_TIME_SEC : float
}.

(** The values the script ships with. *)
Definition CONFIG : Config := {|
  THRESHOLD_ABOVE_MEDIAN_DB := 3.5%float;
  ENABLE_TTS_ALERTS := true;
  TTS_COOLDOWN_SEC := 5%float;
  LISTEN_TIME_SEC := 5%float
|}.

(** *** [scan_band] *)

(** What [subprocess.check_output(cmd, text=True, ...)] does: it returns
    the text the tool printed, raises [CalledProcessError] (carrying that
    text) on a non-zero exit status, or raises [FileNotFoundError] when the
    tool is not installed. *)
Inductive check_output : Type :=
  | Returned (out : string)
  | CalledProcessError (output : string)
  | ToolNotFound.

Definition comma : ascii := ascii_of_nat 44.

(** One turn of the loop over the lines of the output: [data_parts] grows
    by the fields of a line that is not blank, is not a comment, has a
    comma and has at least eight fields. *)
Definition keep_line (data_parts : list (list string)) (line : string)
  : list (list string) :=
  let line := PyStr.strip line in
  if String.eqb line "" || PyStr.startswith "#" line then data_parts
  else if negb (PyStr.contains comma line) then data_parts
  else
    let parts := PyStr.split comma line in
    if 8 <=? List.length parts then data_parts ++ [parts] else data_parts.

Definition data_lines (out : string) : list (list string) :=
  fold_left keep_line (PyStr.splitlines out) [].

(** The two header fields, [float(parts[2])] and [float(parts[4])]. *)
Definition header (parts : list string) : M (float * float) :=
  (p2 <- index parts 2 ;;
   freq_start <- py_float p2 ;;
   p4 <- index parts 4 ;;
   bin_hz <- py_float p4 ;;
   ret (freq_start, bin_hz))%exc.

(** One turn of the loop over [enumerate(power_values_str)]: a field that
    is blank or does not parse is passed over, any other adds one frequency
    and one power. *)
Definition add_bin (freq_start bin_hz : float)
    (acc : M (list float * list float)) (ip : nat * string)
  : M (list float * list float) :=
  ('(freqs, powers) <- acc ;;
   let '(i, p_str) := ip in
   let p_str := PyStr.strip p_str in
   if String.eqb p_str "" then ret (freqs, powers)
   else
     r <- try_except (p_db <- py_float p_str ;; ret (Some p_db))
                     ValueError (ret None) ;;
     match r with
     | None => ret (freqs, powers)
     | Some p_db =>
         let freq := (freq_start + of_nat i * bin_hz)%float in
         ret (freqs ++ [freq], powers ++ [p_db])
     end)%exc.

(** The part of [scan_band] after the command has run. *)
Definition scan_band (run : check_output) : M (list float * list float) :=
  match run with
  | ToolNotFound => raise FileNotFoundError
  | CalledProcessError _ => ret ([], [])
  | Returned out =>
      let data_parts := data_lines out in
      match data_parts with
      | [] => ret ([], [])
      | _ =>
          (parts <- PyStd.last_item data_parts ;;
           h <- try_except (h <- header parts ;; ret (Some h))
                           ValueError (ret None) ;;
           match h with
           | None => ret ([], [])
           | Some (freq_start, bin_hz) =>
               let power_values_str := skipn 6 parts in
               fold_left (add_bin freq_start bin_hz)
                         (PyStd.enumerate power_values_str) (ret ([], []))
           end)%exc
      end
  end.

(** *** [detect_peaks] *)

(** One turn of the loop over [zip(freqs, powers)]. *)
Definition add_hit (cutoff : float) (hits : list (float * float))
    (fp : float * float) : list (float * float) :=
  let '(f, p) := fp in
  if (cutoff <=? p)%float then hits ++ [(f, p)] else hits.

Definition cutoff_of (cfg : Config) (median_noise : float) : float :=
  (median_noise + THRESHOLD_ABOVE_MEDIAN_DB cfg)%float.

Definition detect_peaks (cfg : Config) (freqs powers : list float)
  : M (list (float * float)) :=
  match powers with
  | [] => ret []
  | _ =>
      (median_noise <- PyStd.median powers ;;
       max_p <- PyStd.max powers ;;
       let cutoff := cutoff_of cfg median_noise in
       ret (fold_left (add_hit cutoff) (combine freqs powers) []))%exc
  end.

(** *** The sort of the watch loop

    [hits.sort(key=lambda x: x[1], reverse=True)] in [main]: a stable sort
    on the power, strongest first.  [place h l] puts [h] in front of the
    first hit that is not stronger than [h]. *)
Fixpoint place (h : float * float) (l : list (float * float))
  : list (float * float) :=
  match l with
  | [] => [h]
  | k :: l' => if (snd h <? snd k)%float then k :: place h l' else h :: l
  end.

Definition sort_hits (hits : list (float * float)) : list (float * float) :=
  fold_right place [] hits.

(** The hits of one band as the watch loop reports them: [detect_peaks]
    followed by the sort. *)
Definition reported_hits (cfg : Config) (freqs powers : list float)
  : M (list (float * float)) :=
  (hits <- detect_peaks cfg freqs powers ;;
   ret (sort_hits hits))%exc.

(** *** [speak] *)

(** The module-level [last_tts_time], initially [0.0]. *)
Record AlertState : Type := { last_tts_time : float }.

Definition initial_alert_state : AlertState := {| last_tts_time := 0%float |}.

(** What [speak] does to the outside: lines printed and processes
    started. *)
Inductive output : Type :=
  | Print (text : string)
  | Popen (argv : list string).

(** What [subprocess.Popen([ESPEAK, ...])] does: the process starts, or
    [FileNotFoundError] is raised because espeak is not installed. *)
Inductive popen_result : Type :=
  | Started
  | NotInstalled.

Definition ESPEAK : string := "espeak".

(** [speak(message)], with the reading of the clock [now = time.time()]
    and the fate of the espeak process as inputs.  It returns the new
    alert state and what was output. *)
Definition speak (cfg : Config) (now : float) (espeak : popen_result)
    (message : string) (st : AlertState) : AlertState * list output :=
  if negb (ENABLE_TTS_ALERTS cfg) then (st, [])
  else if (now - last_tts_time st <? TTS_COOLDOWN_SEC cfg)%float then (st, [])
  else
    let st' := {| last_tts_time := now |} in
    let tts := Print (String.append "[TTS] " message) in
    match espeak with
    | Started =>
        (st', [tts; Popen [ESPEAK; "-s"; "170"; "-a"; "200"; message]])
    | NotInstalled =>
        (st', [tts;
               Print "[!] espeak not found. Install with: sudo apt install espeak"])
    end.

(** One call of [speak] as the watch loop makes it. *)
Record attempt : Type := {
  attempt_time : float;
  attempt_espeak : popen_result;
  attempt_message : string
}.

(** A series of calls of [speak]: the final alert state and, call by
    call, what was output. *)
Fixpoint speak_all (cfg : Config) (calls : list attempt) (st : AlertState)
  : AlertState * list (list output) :=
  match calls with
  | [] => (st, [])
  | c :: calls' =>
      let '(st1, out) :=
        speak cfg (attempt_time c) (attempt_espeak c) (attempt_message c) st in
      let '(st2, outs) := speak_all cfg calls' st1 in
      (st2, out :: outs)
  end.

(** The values [last_tts_time] takes during a series of calls, one per
    call that assigned it. *)
Fixpoint alert_times (cfg : Config) (calls : list attempt) (st : AlertState)
  : list float :=
  match calls with
  | [] => []
  | c :: calls' =>
      let '(st1, out) :=
        speak cfg (attempt_time c) (attempt_espeak c) (attempt_message c) st in
      match out with
      | [] => alert_times cfg calls' st1
      | _ => last_tts_time st1 :: alert_times cfg calls' st1
      end
  end.

(** *** [listen_to_frequency]

    The listener runs beside the processes it starts and beside the
    clock, so it is modelled as a machine that takes one step per
    statement, with steps of the environment in between: a process group
    exits, the clock moves, or Ctrl-C sets [stop_requested]. *)

Definition pid : Type := nat.

(** Where the listener is in its code. *)
Inductive point : Type :=
  | AtEntry               (* the test [current_audio_proc and ...poll() is None] *)
  | KillPrevious (p : pid) (* [os.killpg(current_audio_proc.pid, SIGTERM)] *)
  | Spawn                 (* [current_audio_proc = subprocess.Popen(...)] *)
  | ReadT0                (* [t0 = time.time()] *)
  | LoopTime              (* [while time.time() - t0 < seconds] *)
  | LoopStop              (* [if stop_requested: break] *)
  | LoopPoll              (* [if current_audio_proc.poll() is not None: break] *)
  | Sleep                 (* [time.sleep(0.2)] *)
  | Finally               (* the test of the [finally] block *)
  | KillOwn (p : pid)      (* [os.killpg(current_audio_proc.pid, SIGTERM)] *)
  | Done.

(** What the listener does to process groups, in the order it happens. *)
Inductive action : Type :=
  | Sigterm (p : pid)
  | Start (p : pid).

Record Machine : Type := {
  at_point : point;
  alive : list pid;              (* the pipelines that have not exited *)
  next_pid : pid;                (* the pid the next pipeline gets *)
  clock : float;
  stop_requested : bool;
  current_audio_proc : option pid;
  t0 : float;
  performed : list action
}.

Definition is_alive (p : pid) (m : Machine) : bool :=
  existsb (Nat.eqb p) (alive m).

Definition goto (pt : point) (m : Machine) : Machine :=
  {| at_point := pt; alive := alive m; next_pid := next_pid m;
     clock := clock m; stop_requested := stop_requested m;
     current_audio_proc := current_audio_proc m; t0 := t0 m;
     performed := performed m |}.

(** [os.killpg(p, SIGTERM)] inside [try ... except ProcessLookupError:
    pass]: the signal is sent to a group that exists, and nothing happens
    otherwise.  Sending the signal does not wait for the group to exit. *)
Definition killpg (p : pid) (m : Machine) : Machine :=
  if is_alive p m then
    {| at_point := at_point m; alive := alive m; next_pid := next_pid m;
       clock := clock m; stop_requested := stop_requested m;
       current_audio_proc := current_audio_proc m; t0 := t0 m;
       performed := performed m ++ [Sigterm p] |}
  else m.

(** The test [current_audio_proc and current_audio_proc.poll() is None]. *)
Definition owned_and_running (m : Machine) : option pid :=
  match current_audio_proc m with
  | Some p => if is_alive p m then Some p else None
  | None => None
  end.

(** One statement of [listen_to_frequency(freq_hz, seconds)]. *)
Definition step_listener (seconds : float) (m : Machine) : Machine :=
  match at_point m with
  | AtEntry =>
      match owned_and_running m with
      | Some p => goto (KillPrevious p) m
      | None => goto Spawn m
      end
  | KillPrevious p => goto Spawn (killpg p m)
  | Spawn =>
      let p := next_pid m in
      {| at_point := ReadT0; alive := alive m ++ [p]; next_pid := S p;
         clock := clock m; stop_requested := stop_requested m;
         current_audio_proc := Some p; t0 := t0 m;
         performed := performed m ++ [Start p] |}
  | ReadT0 =>
      {| at_point := LoopTime; alive := alive m; next_pid := next_pid m;
         clock := clock m; stop_requested := stop_requested m;
         current_audio_proc := current_audio_proc m; t0 := clock m;
         performed := performed m |}
  | LoopTime =>
      if (clock m - t0 m <? seconds)%float then goto LoopStop m
      else goto Finally m
  | LoopStop =>
      if stop_requested m then goto Finally m else goto LoopPoll m
  | LoopPoll =>
      match owned_and_running m with
      | Some _ => goto Sleep m
      | None => goto Finally m
      end
  | Sleep => goto LoopTime m
  | Finally =>
      match owned_and_running m with
      | Some p => goto (KillOwn p) m
      | None => goto Done m
      end
  | KillOwn p => goto Done (killpg p m)
  | Done => m
  end.

(** What happens around the listener. *)
Inductive happening : Type :=
  | Listener                 (* the listener runs its next statement *)
  | Exits (p : pid)          (* a pipeline exits *)
  | Clock (t : float)        (* the clock now reads [t] *)
  | CtrlC.                   (* [handle_sigint] sets [stop_requested] *)

Definition step (seconds : float) (m : Machine) (h : happening) : Machine :=
  match h with
  | Listener => step_listener seconds m
  | Exits p =>
      {| at_point := at_point m;
         alive := filter (fun q => negb (Nat.eqb p q)) (alive m);
         next_pid := next_pid m; clock := clock m;
         stop_requested := stop_requested m;
         current_audio_proc := current_audio_proc m; t0 := t0 m;
         performed := performed m |}
  | Clock t =>
      {| at_point := at_point m; alive := alive m; next_pid := next_pid m;
         clock := t; stop_requested := stop_requested m;
         current_audio_proc := current_audio_proc m; t0 := t0 m;
         performed := performed m |}
  | CtrlC =>
      {| at_point := at_point m; alive := alive m; next_pid := next_pid m;
         clock := clock m; stop_requested := true;
         current_audio_proc := current_audio_proc m; t0 := t0 m;
         performed := performed m |}
  end.

(** A call of [listen_to_frequency] under a schedule of happenings. *)
Definition listen_to_frequency (seconds : float) (schedule : list happening)
    (m : Machine) : Machine :=
  fold_left (step seconds) schedule m.

(** The machine as a call of [listen_to_frequency] finds it. *)
Definition on_call (running : list pid) (fresh : pid) (now : float)
    (stop : bool) (owned : option pid) : Machine :=
  {| at_point := AtEntry; alive := running; next_pid := fresh; clock := now;
     stop_requested := stop; current_audio_proc := owned; t0 := 0%float;
     performed := [] |}.

End Watcher.

Import Watcher.

(** ** Vocabulary of the specification *)

(** A value that is a number: Python's [x == x]. *)
Definition not_nan (x : float) : Prop := (x =? x)%float = true.

(** The power a field of the line stands for, if it is retained: the
    field, stripped, is not empty and [float] accepts it. *)
Definition parsed_field (s : string) : option float :=
  let s := PyStr.strip s in
  if String.eqb s "" then None
  else match py_float s with
       | inr p => Some p
       | inl _ => None
       end.

(** The retained power fields with their positions among all the power
    fields, positions counted from [from]. *)
Fixpoint retained_from (from : nat) (fields : list string)
  : list (nat * float) :=
  match fields with
  | [] => []
  | s :: fields' =>
      match parsed_field s with
      | Some p => (from, p) :: retained_from (S from) fields'
      | None => retained_from (S from) fields'
      end
  end.

Definition retained (fields : list string) : list (nat * float) :=
  retained_from 0 fields.

(** The frequency of the bin at position [i] of the line. *)
Definition bin_frequency (freq_start bin_hz : float) (i : nat) : float :=
  (freq_start + of_nat i * bin_hz)%float.

(** The sweep a data line stands for. *)
Definition sweep_of_line (parts : list string) : list float * list float :=
  match header parts with
  | inl _ => ([], [])
  | inr (freq_start, bin_hz) =>
      let r := retained (skipn 6 parts) in
      (map (fun ip => bin_frequency freq_start bin_hz (fst ip)) r,
       map snd r)
  end.

(** The frequencies of all the bins of a data line, skipped or not. *)
Definition bin_grid (parts : list string) : list float :=
  match header parts with
  | inl _ => []
  | inr (freq_start, bin_hz) =>
      map (bin_frequency freq_start bin_hz)
          (seq 0 (List.length (skipn 6 parts)))
  end.


(** Each value is smaller than the next one. *)
Fixpoint increasing (l : list float) : bool :=
  match l with
  | x :: l' =>
      match l' with
      | y :: _ => (x <? y)%float && increasing l'
      | [] => true
      end
  | [] => true
  end.

(** The hits are ordered by power, strongest first. *)
Definition descending (hits : list (float * float)) : Prop :=
  StronglySorted (fun h k => (snd k <=? snd h)%float = true) hits.

Fixpoint descendingb (hits : list (float * float)) : bool :=
  match hits with
  | h :: hits' =>
      match hits' with
      | k :: _ => (snd k <=? snd h)%float && descendingb hits'
      | [] => true
      end
  | [] => true
  end.


(** [float] rejects the text. *)
Definition unparseable (s : string) : bool :=
  match py_float s with
  | inl _ => true
  | inr _ => false
  end.


(** A call of [speak] got past the switch and the rate limiter. *)
Definition dispatched (cfg : Config) (now : float) (st : AlertState) : bool :=
  ENABLE_TTS_ALERTS cfg
  && negb (now - last_tts_time st <? TTS_COOLDOWN_SEC cfg)%float.

(** The espeak process was started. *)
Definition spoken (out : list output) : bool :=
  existsb (fun o => match o with Popen _ => true | Print _ => false end) out.

(** The state a call of [listen_to_frequency] can find: every pid in use
    is older than the next pid to be given out. *)
Definition well_formed (m : Machine) : Prop :=
  Forall (fun p => p < next_pid m) (alive m) /\
  match current_audio_proc m with
  | Some p => p < next_pid m
  | None => True
  end.

(** How many statements the listener has left at most, from a point of
    its loop, once the clock has passed the deadline. *)
Definition statements_left (pt : point) : nat :=
  match pt with
  | Done => 0
  | KillOwn _ => 1
  | Finally => 2
  | LoopTime => 3
  | Sleep => 4
  | LoopPoll => 5
  | LoopStop => 6
  | ReadT0 => 7
  | Spawn => 8
  | KillPrevious _ => 9
  | AtEntry => 10
  end.

(** What the listener has done about the pipeline it found, by the time
    it starts its own: it sent SIGTERM to it, or it did nothing and that
    pipeline has exited (or there was none). *)
Definition previous_handled (owned : option pid) (m : Machine)
    (before : list action) : Prop :=
  match owned with
  | Some p => before = [Sigterm p] \/ (before = [] /\ ~ In p (alive m))
  | None => before = []
  end.

(** What the listener has done about its own pipeline by the time it
    returns: it sent SIGTERM to it, or it did nothing and the pipeline has
    exited. *)
Definition own_handled (fresh : pid) (m : Machine) (after : list action)
  : Prop :=
  after = [Sigterm fresh] \/ (after = [] /\ ~ In fresh (alive m)).

(** What holds at each point of a call of [listen_to_frequency] that
    found [owned] in [current_audio_proc] and [fresh] as the next pid. *)
Definition listener_invariant (owned : option pid) (fresh : pid)
    (m : Machine) : Prop :=
  match at_point m with
  | AtEntry =>
      current_audio_proc m = owned /\ next_pid m = fresh /\ performed m = []
  | KillPrevious p =>
      owned = Some p /\ current_audio_proc m = owned /\
      next_pid m = fresh /\ performed m = []
  | Spawn =>
      current_audio_proc m = owned /\ next_pid m = fresh /\
      previous_handled owned m (performed m)
  | KillOwn p =>
      p = fresh /\ current_audio_proc m = Some fresh /\
      exists before,
        performed m = before ++ [Start fresh] /\
        previous_handled owned m before
  | Done =>
      current_audio_proc m = Some fresh /\
      exists before after,
        performed m = before ++ Start fresh :: after /\
        previous_handled owned m before /\
        own_handled fresh m after
  | _ =>
      current_audio_proc m = Some fresh /\
      exists before,
        performed m = before ++ [Start fresh] /\
        previous_handled owned m before
  end.

(** ** Fixed-point formatting *)

Module PyFormat.

Definition digit_char (d : Z) : ascii := ascii_of_nat (48 + Z.to_nat d).

(** The last [digits] decimal digits of [r], most significant first. *)
Fixpoint fraction_digits (digits : nat) (r : Z) : string :=
  match digits with
  | 0 => EmptyString
  | S digits' =>
      String (digit_char ((r / 10 ^ Z.of_nat digits') mod 10))
             (fraction_digits digits' r)
  end.

(** The number of decimal digits of [q], one for zero; [fuel] bounds the
    number of divisions by ten. *)
Fixpoint decimal_size (fuel : nat) (q : Z) : nat :=
  match fuel with
  | 0 => 1
  | S fuel' => if (q <? 10)%Z then 1 else S (decimal_size fuel' (q / 10))
  end.

(** The decimal digits of a natural number, ["0"] for zero. *)
Definition integer_digits (q : Z) : string :=
  fraction_digits (decimal_size (Z.to_nat (Z.log2 q)) q) q.

(** [n / d] rounded to the nearest integer, ties to the even one. *)
Definition round_half_even (n d : Z) : Z :=
  let q := (n / d)%Z in
  match (2 * (n mod d) ?= d)%Z with
  | Lt => q
  | Gt => (q + 1)%Z
  | Eq => if Z.even q then q else (q + 1)%Z
  end.

(** [m * 2^e * 10^digits] rounded to the nearest integer, ties to even:
    the value [m * 2^e] counted in units of the last digit printed. *)
Definition scaled (digits : nat) (m : positive) (e : Z) : Z :=
  let n := (Zpos m * 10 ^ Z.of_nat digits)%Z in
  if (0 <=? e)%Z then (n * 2 ^ e)%Z else round_half_even n (2 ^ (- e)).

Definition sign_text (s : bool) : string := if s then "-" else "".

(** The digits of [q] units of the last digit, with the point in place;
    no point when no digit follows it. *)
Definition fixed_text (digits : nat) (q : Z) : string :=
  let whole := integer_digits (q / 10 ^ Z.of_nat digits) in
  match digits with
  | 0 => whole
  | _ => String.append whole
           (String (ascii_of_nat 46) (fraction_digits digits q))
  end.

(** Python's [f"{x:.Nf}"]: the exact value of the float, correctly
    rounded to [N] digits after the point; [nan] and [inf] by name. *)
Definition format_fixed (digits : nat) (x : float) : string :=
  match Prim2SF x with
  | S754_nan => "nan"
  | S754_infinity s => String.append (sign_text s) "inf"
  | S754_zero s => String.append (sign_text s) (fixed_text digits 0)
  | S754_finite s m e =>
      String.append (sign_text s) (fixed_text digits (scaled digits m e))
  end.

End PyFormat.

Import PyFormat.

(** ** The watch loop *)

Module WatchLoop.

(** [hz_to_mhz_str(freq_hz)] *)
Definition hz_to_mhz_str (freq_hz : float) : string :=
  String.append (format_fixed 6 (freq_hz / 1000000)%float) "M".

(** The alert of [main] for the strongest hit of a band:
    [f"Activity detected. {band_name}. {mhz:.3f} megahertz."] *)
Definition activity_message (band_name : string) (mhz : float) : string :=
  String.append "Activity detected. "
    (String.append band_name
       (String.append ". "
          (String.append (format_fixed 3 mhz) " megahertz."))).

(** One turn of the loop of [main] over the bands, after the test of
    [stop_requested]: scan, detect, and when there are hits sort them and
    speak of the strongest.  The inputs are what the turn meets: the
    result of running [rtl_power], and for [speak] the clock and the fate
    of espeak. *)
Definition watch_band (cfg : Config) (band_name : string)
    (run : check_output) (now : float) (espeak : popen_result)
    (st : AlertState) : M (AlertState * list output) :=
  (sweep <- scan_band run ;;
   let '(freqs, powers) := sweep in
   hits <- detect_peaks cfg freqs powers ;;
   match hits with
   | [] => ret (st, [])
   | _ =>
       let hits := sort_hits hits in
       strongest <- index hits 0 ;;
       let '(strongest_freq, strongest_power) := strongest in
       let mhz := (strongest_freq / 1000000)%float in
       ret (speak cfg now espeak (activity_message band_name mhz) st)
   end)%exc.

(** What one turn of the loop over the bands meets. *)
Record turn : Type := {
  turn_stop : bool;              (* [stop_requested] at the top of the turn *)
  turn_band : string;
  turn_run : check_output;
  turn_now : float;
  turn_espeak : popen_result
}.

(** One pass of [main] over the bands: [for ... in BANDS], left by
    [break] when [stop_requested] is set. *)
Fixpoint watch_pass (cfg : Config) (turns : list turn) (st : AlertState)
  : M (AlertState * list output) :=
  match turns with
  | [] => ret (st, [])
  | t :: turns' =>
      if turn_stop t then ret (st, [])
      else
        (r1 <- watch_band cfg (turn_band t) (turn_run t) (turn_now t)
                          (turn_espeak t) st ;;
         r2 <- watch_pass cfg turns' (fst r1) ;;
         ret (fst r2, snd r1 ++ snd r2))%exc
  end.

(** What one turn of [while not stop_requested] meets: the flag at the
    test, and the turns of the pass over the bands. *)
Record pass : Type := {
  pass_stop : bool;
  pass_turns : list turn
}.

(** The loop [while not stop_requested] of [main], as far as the passes
    given go: it is left when the flag is found set. *)
Fixpoint watch_passes (cfg : Config) (passes : list pass) (st : AlertState)
  : M (AlertState * list output) :=
  match passes with
  | [] => ret (st, [])
  | p :: passes' =>
      if pass_stop p then ret (st, [])
      else
        (r1 <- watch_pass cfg (pass_turns p) st ;;
         r2 <- watch_passes cfg passes' (fst r1) ;;
         ret (fst r2, snd r1 ++ snd r2))%exc
  end.

(** [main]: the start-up announcement, then the passes. *)
Definition main (cfg : Config) (now : float) (espeak : popen_result)
    (passes : list pass) : M (AlertState * list output) :=
  let started :=
    speak cfg now espeak "RTL S D R watcher started." initial_alert_state in
  (r <- watch_passes cfg passes (fst started) ;;
   ret (fst r, snd started ++ snd r))%exc.

End WatchLoop.

Import WatchLoop.

(** ** Vocabulary of the further properties *)




(** How many statements the listener has left at most, from a point of
    its loop, once [stop_requested] is set. *)
Definition statements_left_stopped (pt : point) : nat :=
  match pt with
  | Done => 0
  | KillOwn _ => 1
  | Finally => 2
  | LoopStop => 3
  | LoopTime => 4
  | Sleep => 5
  | LoopPoll => 6
  | ReadT0 => 7
  | Spawn => 8
  | KillPrevious _ => 9
  | AtEntry => 10
  end.

(** How many statements the listener has left at most, from a point of
    its loop, once its pipeline has exited. *)
Definition statements_left_exited (pt : point) : nat :=
  match pt with
  | Done => 0
  | KillOwn _ => 1
  | Finally => 2
  | LoopPoll => 3
  | LoopStop => 4
  | LoopTime => 5
  | Sleep => 6
  | ReadT0 => 7
  | Spawn => 8
  | KillPrevious _ => 9
  | AtEntry => 10
  end.

(** The calls of [speak] a pass over the bands makes: one for each turn,
    up to the first that finds [stop_requested] set, whose band has a
    hit. *)
Fixpoint pass_calls (cfg : Config) (turns : list turn) : list attempt :=
  match turns with
  | [] => []
  | t :: turns' =>
      if turn_stop t then []
      else
        match bind (scan_band (turn_run t))
                   (fun sweep => reported_hits cfg (fst sweep) (snd sweep)) with
        | inr (h :: _) =>
            {| attempt_time := turn_now t;
               attempt_espeak := turn_espeak t;
               attempt_message :=
                 activity_message (turn_band t) (fst h / 1000000)%float |}
            :: pass_calls cfg turns'
        | _ => pass_calls cfg turns'
        end
  end.

(** The calls of [speak] the passes make, up to the first pass that
    finds [stop_requested] set. *)
Fixpoint passes_calls (cfg : Config) (passes : list pass) : list attempt :=
  match passes with
  | [] => []
  | p :: passes' =>
      if pass_stop p then []
      else pass_calls cfg (pass_turns p) ++ passes_calls cfg passes'
  end.

(** The calls of [speak] that [main] makes. *)
Definition main_calls (cfg : Config) (now : float) (espeak : popen_result)
    (passes : list pass) : list attempt :=
  {| attempt_time := now; attempt_espeak := espeak;
     attempt_message := "RTL S D R watcher started." |}
  :: passes_calls cfg passes.

(** The tool is installed in every turn. *)
Definition tool_present (t : turn) : bool :=
  match turn_run t with
  | ToolNotFound => false
  | _ => true
  end.

(** A character is a decimal digit. *)
Definition is_digit (c : ascii) : bool :=
  let n := nat_of_ascii c in (48 <=? n) && (n <=? 57).

Fixpoint all_digits (s : string) : bool :=
  match s with
  | EmptyString => true
  | String c s' => is_digit c && all_digits s'
  end.

(* ================================================================== *)
(** * Proofs *)

(** ** Float comparison

    The comparisons of primitive floats are specified by [SFcompare] on
    their decoded form. *)

Section FloatOrder.

Lemma SFcompare_swap (x y : spec_float) :
  SFcompare y x = option_map CompOpp (SFcompare x y).
Proof.
  destruct x as [sx|sx| |sx mx ex], y as [sy|sy| |sy my ey]; simpl;
    try reflexivity;
    try (destruct sx; reflexivity); try (destruct sy; reflexivity);
    try (destruct sx, sy; reflexivity).
  destruct sx, sy; simpl; try reflexivity;
    rewrite (Z.compare_antisym ey ex);
    destruct (ey ?= ex)%Z; simpl; try reflexivity;
    rewrite (Pos.compare_cont_antisym mx my Eq); reflexivity.
Qed.

Lemma SFcompare_refl (x : spec_float) :
  x <> S754_nan -> SFcompare x x = Some Eq.
Proof.
  destruct x as [s|s| |s m e]; simpl; intros H; try reflexivity.
  - destruct s; reflexivity.
  - congruence.
  - rewrite Z.compare_refl, Pos.compare_cont_refl. destruct s; reflexivity.
Qed.

Lemma SFcompare_defined (x y : spec_float) :
  x <> S754_nan -> y <> S754_nan -> exists c, SFcompare x y = Some c.
Proof.
  intros Hx Hy.
  destruct x as [sx|sx| |sx mx ex], y as [sy|sy| |sy my ey]; simpl;
    try congruence; eauto.
Qed.

Ltac order_cases ex ey ez mx my mz :=
  change (Pos.compare_cont Eq) with Pos.compare;
  destruct (Z.compare_spec ex ey), (Z.compare_spec ey ez),
           (Z.compare_spec ex ez); try congruence; try lia;
  destruct (Pos.compare_spec mx my), (Pos.compare_spec my mz),
           (Pos.compare_spec mx mz); simpl; try congruence; try lia.

Lemma SFltb_trans (x y z : spec_float) :
  SFltb x y = true -> SFltb y z = true -> SFltb x z = true.
Proof.
  unfold SFltb.
  destruct x as [sx|sx| |sx mx ex], y as [sy|sy| |sy my ey],
           z as [sz|sz| |sz mz ez]; simpl;
    try discriminate; try (destruct sx; discriminate);
    try (destruct sy; discriminate); try (destruct sz; discriminate);
    try (destruct sx, sy; discriminate); try (destruct sy, sz; discriminate);
    try (destruct sx, sz; simpl; congruence);
    try (destruct sx, sy, sz; simpl; congruence).
  destruct sx, sy, sz; simpl; try congruence; order_cases ex ey ez mx my mz.
Qed.

Lemma SFleb_trans (x y z : spec_float) :
  SFleb x y = true -> SFleb y z = true -> SFleb x z = true.
Proof.
  unfold SFleb.
  destruct x as [sx|sx| |sx mx ex], y as [sy|sy| |sy my ey],
           z as [sz|sz| |sz mz ez]; simpl;
    try discriminate; try reflexivity;
    try (destruct sx; discriminate); try (destruct sx; reflexivity);
    try (destruct sy; discriminate); try (destruct sy; reflexivity);
    try (destruct sz; discriminate); try (destruct sz; reflexivity);
    try (destruct sx, sy; discriminate); try (destruct sy, sz; discriminate);
    try (destruct sx, sz; simpl; congruence);
    try (destruct sx, sy, sz; simpl; congruence).
  destruct sx, sy, sz; simpl; try congruence; order_cases ex ey ez mx my mz.
Qed.

Lemma not_nan_spec (x : float) : not_nan x <-> Prim2SF x <> S754_nan.
Proof.
  unfold not_nan. rewrite eqb_spec. unfold SFeqb. split.
  - intros H E. rewrite E in H. simpl in H. discriminate.
  - intros H. rewrite SFcompare_refl by exact H. reflexivity.
Qed.

(** [x < y < z] gives [x < z]. *)
Lemma ltb_trans (x y z : float) :
  (x <? y)%float = true -> (y <? z)%float = true -> (x <? z)%float = true.
Proof. rewrite !ltb_spec. apply SFltb_trans. Qed.

(** [x <= y <= z] gives [x <= z]. *)
Lemma leb_trans (x y z : float) :
  (x <=? y)%float = true -> (y <=? z)%float = true -> (x <=? z)%float = true.
Proof. rewrite !leb_spec. apply SFleb_trans. Qed.

(** [a < b] gives [a <= b]. *)
Lemma ltb_leb (a b : float) :
  (a <? b)%float = true -> (a <=? b)%float = true.
Proof.
  rewrite ltb_spec, leb_spec. unfold SFltb, SFleb.
  destruct (SFcompare (Prim2SF a) (Prim2SF b)) as [[ | | ]|]; congruence.
Qed.

(** [a <= b] excludes [b < a]. *)
Lemma leb_not_ltb (a b : float) :
  (a <=? b)%float = true -> (b <? a)%float = false.
Proof.
  rewrite leb_spec, ltb_spec. unfold SFleb, SFltb.
  rewrite (SFcompare_swap (Prim2SF a) (Prim2SF b)).
  destruct (SFcompare (Prim2SF a) (Prim2SF b)) as [[ | | ]|]; simpl;
    congruence.
Qed.

(** Among numbers the order is total: not [b < a] means [a <= b]. *)
Lemma not_ltb_leb (a b : float) :
  not_nan a -> not_nan b -> (b <? a)%float = false -> (a <=? b)%float = true.
Proof.
  rewrite !not_nan_spec, leb_spec, ltb_spec. unfold SFleb, SFltb.
  intros Ha Hb.
  destruct (SFcompare_defined _ _ Ha Hb) as [c Hc].
  rewrite (SFcompare_swap (Prim2SF a) (Prim2SF b)), Hc.
  destruct c; simpl; congruence.
Qed.

(** Both sides of a comparison that holds are numbers. *)
Lemma leb_not_nan (a b : float) :
  (a <=? b)%float = true -> not_nan a /\ not_nan b.
Proof.
  rewrite !not_nan_spec, leb_spec. unfold SFleb.
  destruct (Prim2SF a), (Prim2SF b); simpl; intros H; split; congruence.
Qed.

(** Python's [==] on floats implies [<=] both ways. *)
Lemma eqb_leb (a b : float) :
  (a =? b)%float = true -> (a <=? b)%float = true /\ (b <=? a)%float = true.
Proof.
  rewrite eqb_spec, !leb_spec. unfold SFeqb, SFleb.
  rewrite (SFcompare_swap (Prim2SF a) (Prim2SF b)).
  destruct (SFcompare (Prim2SF a) (Prim2SF b)) as [[ | | ]|]; simpl;
    intros H; split; congruence.
Qed.

End FloatOrder.

(** ** Strings *)

Section Strings.

Lemma contains_lstrip (c : ascii) (s : string) :
  PyStr.contains c (PyStr.lstrip s) = true -> PyStr.contains c s = true.
Proof.
  induction s as [|d s IH]; simpl; [easy|].
  destruct (PyStr.is_space d); simpl.
  - intros H. rewrite (IH H). apply orb_true_r.
  - easy.
Qed.

Lemma contains_rstrip (c : ascii) (s : string) :
  PyStr.contains c (PyStr.rstrip s) = true -> PyStr.contains c s = true.
Proof.
  induction s as [|d s IH]; simpl; [easy|].
  destruct (PyStr.rstrip s) as [|e r] eqn:E.
  - destruct (PyStr.is_space d); simpl; [discriminate|].
    rewrite orb_false_r. intros ->. reflexivity.
  - simpl. simpl in IH.
    destruct (Ascii.eqb c d); simpl; [reflexivity|]. exact IH.
Qed.

Lemma contains_strip (c : ascii) (s : string) :
  PyStr.contains c (PyStr.strip s) = true -> PyStr.contains c s = true.
Proof.
  unfold PyStr.strip. intros H.
  apply contains_lstrip, contains_rstrip, H.
Qed.

End Strings.

(** ** [float] raises nothing but [ValueError] *)

Lemma py_float_raises (s : string) (e : exn) :
  py_float s = inl e -> e = ValueError.
Proof.
  unfold py_float.
  repeat match goal with
         | |- context [match ?x with _ => _ end] => destruct x
         end;
    unfold ret, raise; congruence.
Qed.

Lemma py_float_cases (s : string) :
  (exists p, py_float s = inr p) \/ py_float s = inl ValueError.
Proof.
  destruct (py_float s) as [e|p] eqn:E.
  - right. rewrite (py_float_raises _ _ E). reflexivity.
  - left. eauto.
Qed.

(** ** The median *)

Section Median.

Lemma insort_length (x : float) (l : list float) :
  List.length (PyStd.insort x l) = S (List.length l).
Proof.
  induction l as [|y l IH]; simpl; [reflexivity|].
  destruct (y <? x)%float; simpl; [rewrite IH|]; reflexivity.
Qed.

Lemma sorted_length (l : list float) :
  List.length (PyStd.sorted l) = List.length l.
Proof.
  induction l as [|x l IH]; simpl; [reflexivity|].
  rewrite insort_length, IH. reflexivity.
Qed.

Lemma insort_perm (x : float) (l : list float) :
  Permutation (x :: l) (PyStd.insort x l).
Proof.
  induction l as [|y l IH]; simpl; [apply Permutation_refl|].
  destruct (y <? x)%float; [|apply Permutation_refl].
  apply perm_trans with (y :: x :: l); [apply perm_swap|].
  apply perm_skip, IH.
Qed.

(** [sorted] rearranges its argument. *)
Lemma sorted_perm (l : list float) : Permutation l (PyStd.sorted l).
Proof.
  induction l as [|x l IH]; simpl; [apply perm_nil|].
  apply perm_trans with (x :: PyStd.sorted l); [apply perm_skip, IH|].
  apply insort_perm.
Qed.

Lemma insort_ordered (x : float) (l : list float) :
  not_nan x -> Forall not_nan l ->
  Sorted (fun a b => (a <=? b)%float = true) l ->
  Sorted (fun a b => (a <=? b)%float = true) (PyStd.insort x l).
Proof.
  intros Hx Hl Hs. induction l as [|y l IH]; simpl.
  - repeat constructor.
  - inversion Hl as [|? ? Hy Hl']; subst.
    inversion Hs as [|? ? Hs' Hd]; subst.
    destruct (y <? x)%float eqn:E.
    + constructor; [apply IH; assumption|].
      destruct l as [|z l]; simpl.
      * constructor. apply not_ltb_leb; try assumption.
        apply leb_not_ltb. apply not_ltb_leb; try assumption.
        apply leb_not_ltb.
        rewrite ltb_spec in E. rewrite leb_spec. unfold SFltb in E.
        unfold SFleb.
        destruct (SFcompare (Prim2SF y) (Prim2SF x)) as [[ | | ]|];
          congruence.
      * inversion Hd; subst.
        destruct (z <? x)%float eqn:E2; constructor; try assumption.
        rewrite ltb_spec in E. rewrite leb_spec. unfold SFltb in E.
        unfold SFleb.
        destruct (SFcompare (Prim2SF y) (Prim2SF x)) as [[ | | ]|];
          congruence.
    + constructor; [assumption|]. constructor.
      apply not_ltb_leb; assumption.
Qed.

(** On numbers [sorted] returns its argument in ascending order. *)
Lemma sorted_ordered (l : list float) :
  Forall not_nan l ->
  Sorted (fun a b => (a <=? b)%float = true) (PyStd.sorted l).
Proof.
  induction l as [|x l IH]; intros H; simpl; [constructor|].
  inversion H; subst.
  apply insort_ordered; try assumption.
  - apply (Permutation_Forall (sorted_perm l)). assumption.
  - apply IH. assumption.
Qed.

Lemma index_in_range {A : Type} (xs : list A) (i : nat) :
  i < List.length xs -> exists a, index xs i = inr a /\ nth_error xs i = Some a.
Proof.
  intros H. unfold index.
  destruct (nth_error xs i) as [a|] eqn:E.
  - exists a. split; reflexivity.
  - apply nth_error_None in E. lia.
Qed.

(** The median of data that is not empty exists, and is a value of the
    data or the mean of two of them. *)
Lemma median_total (data : list float) :
  data <> [] -> exists m, PyStd.median data = inr m.
Proof.
  intros Hne. unfold PyStd.median.
  assert (Hn : List.length (PyStd.sorted data) <> 0).
  { rewrite sorted_length. destruct data; simpl; congruence. }
  set (n := List.length (PyStd.sorted data)) in *.
  destruct (n =? 0) eqn:E0; [apply Nat.eqb_eq in E0; contradiction|].
  destruct (n mod 2 =? 1) eqn:E1.
  - destruct (index_in_range (PyStd.sorted data) (n / 2)) as [a [Ha _]].
    { apply Nat.div_lt; lia. }
    exists a. exact Ha.
  - assert (Hhalf : n / 2 < n) by (apply Nat.div_lt; lia).
    destruct (index_in_range (PyStd.sorted data) (n / 2 - 1)) as [a [Ha _]];
      [fold n; lia|].
    destruct (index_in_range (PyStd.sorted data) (n / 2)) as [b [Hb _]];
      [fold n; lia|].
    rewrite Ha, Hb. simpl. eexists. reflexivity.
Qed.

End Median.

(** ** [detect_peaks] *)

Section DetectPeaks.

Variable cfg : Config.

Lemma add_hit_filter (cutoff : float) (l acc : list (float * float)) :
  fold_left (add_hit cutoff) l acc =
  acc ++ filter (fun fp => (cutoff <=? snd fp)%float) l.
Proof.
  revert acc. induction l as [|[f p] l IH]; intros acc; simpl.
  - rewrite app_nil_r. reflexivity.
  - rewrite IH. destruct (cutoff <=? p)%float.
    + rewrite <- app_assoc. reflexivity.
    + reflexivity.
Qed.

(** What [detect_peaks] returns on a sweep that is not empty. *)
Lemma detect_peaks_filter (freqs powers : list float) :
  powers <> [] ->
  exists median_noise,
    PyStd.median powers = inr median_noise /\
    detect_peaks cfg freqs powers =
    inr (filter (fun fp => (cutoff_of cfg median_noise <=? snd fp)%float)
                (combine freqs powers)).
Proof.
  intros Hne. destruct (median_total powers Hne) as [m Hm].
  exists m. split; [exact Hm|].
  unfold detect_peaks. destruct powers as [|p powers]; [congruence|].
  rewrite Hm. simpl. rewrite add_hit_filter. reflexivity.
Qed.

Lemma detect_peaks_empty (freqs : list float) :
  detect_peaks cfg freqs [] = inr [].
Proof. reflexivity. Qed.

(** [detect_peaks] always returns. *)
Lemma detect_peaks_total (freqs powers : list float) :
  exists hits, detect_peaks cfg freqs powers = inr hits.
Proof.
  destruct powers as [|p powers].
  - exists []. reflexivity.
  - destruct (detect_peaks_filter freqs (p :: powers)) as [m [_ H]];
      [congruence|].
    eexists. exact H.
Qed.

End DetectPeaks.



(** ** [scan_band] *)

Section ScanBand.

Lemma keep_line_cases (acc : list (list string)) (line : string) :
  keep_line acc line = acc \/
  (exists parts,
      keep_line acc line = acc ++ [parts] /\ 8 <= List.length parts /\
      PyStr.contains comma line = true).
Proof.
  unfold keep_line.
  destruct (String.eqb (PyStr.strip line) "" || PyStr.startswith "#" (PyStr.strip line));
    [left; reflexivity|].
  destruct (PyStr.contains comma (PyStr.strip line)) eqn:Ec; cbn [negb];
    [|left; reflexivity].
  destruct (8 <=? List.length (PyStr.split comma (PyStr.strip line))) eqn:El;
    [|left; reflexivity].
  right. eexists. split; [reflexivity|]. split.
  - apply Nat.leb_le. exact El.
  - apply contains_strip. exact Ec.
Qed.

Lemma fold_keep_line_fields (lines : list string) (acc : list (list string)) :
  Forall (fun parts => 8 <= List.length parts) acc ->
  Forall (fun parts => 8 <= List.length parts) (fold_left keep_line lines acc).
Proof.
  revert acc. induction lines as [|line lines IH]; intros acc Hacc; simpl;
    [exact Hacc|].
  apply IH.
  destruct (keep_line_cases acc line) as [-> | [parts [-> [Hlen _]]]];
    [exact Hacc|].
  apply Forall_app. split; [exact Hacc|]. constructor; [exact Hlen|constructor].
Qed.

(** Every data line that is kept has at least eight fields. *)
Lemma data_lines_fields (out : string) :
  Forall (fun parts => 8 <= List.length parts) (data_lines out).
Proof. apply fold_keep_line_fields. constructor. Qed.



Lemma last_item_in {A : Type} (xs : list A) (x : A) :
  PyStd.last_item xs = inr x -> In x xs.
Proof.
  unfold PyStd.last_item. destruct (rev xs) as [|y ys] eqn:E; [discriminate|].
  intros H. injection H as <-. apply in_rev. rewrite E. left. reflexivity.
Qed.

Lemma last_item_total {A : Type} (xs : list A) :
  xs <> [] -> exists x, PyStd.last_item xs = inr x.
Proof.
  intros H. unfold PyStd.last_item. destruct (rev xs) as [|y ys] eqn:E.
  - apply (f_equal (@rev A)) in E. rewrite rev_involutive in E. contradiction.
  - exists y. reflexivity.
Qed.

(** On a line of eight fields or more the header raises nothing but
    [ValueError], and does so exactly when [float] rejects one of the two
    header fields. *)
Lemma header_cases (parts : list string) :
  8 <= List.length parts ->
  exists a b,
    nth_error parts 2 = Some a /\ nth_error parts 4 = Some b /\
    ((exists fa fb, py_float a = inr fa /\ py_float b = inr fb /\
                    header parts = inr (fa, fb)) \/
     ((unparseable a || unparseable b) = true /\
      header parts = inl ValueError)).
Proof.
  intros Hlen.
  destruct (index_in_range parts 2) as [a [Ia Na]]; [lia|].
  destruct (index_in_range parts 4) as [b [Ib Nb]]; [lia|].
  exists a, b. split; [exact Na|]. split; [exact Nb|].
  unfold header, unparseable. rewrite Ia, Ib. simpl.
  destruct (py_float_cases a) as [[fa Ha] | Ha]; rewrite Ha; simpl.
  - destruct (py_float_cases b) as [[fb Hb] | Hb]; rewrite Hb; simpl.
    + left. exists fa, fb. repeat split.
    + right. split; reflexivity.
  - right. split; reflexivity.
Qed.

Lemma add_bin_step (freq_start bin_hz : float) (freqs powers : list float)
    (i : nat) (s : string) :
  add_bin freq_start bin_hz (inr (freqs, powers)) (i, s) =
  match parsed_field s with
  | Some p => inr (freqs ++ [bin_frequency freq_start bin_hz i], powers ++ [p])
  | None => inr (freqs, powers)
  end.
Proof.
  unfold add_bin, parsed_field, bin_frequency. simpl.
  destruct (String.eqb (PyStr.strip s) ""); [reflexivity|].
  destruct (py_float_cases (PyStr.strip s)) as [[p Hp] | Hp]; rewrite Hp;
    reflexivity.
Qed.

(** The loop over the power fields, as a whole. *)
Lemma add_bin_fold (freq_start bin_hz : float) (fields : list string) :
  forall (from : nat) (freqs powers : list float),
    fold_left (add_bin freq_start bin_hz)
              (combine (seq from (List.length fields)) fields)
              (inr (freqs, powers)) =
    inr (freqs ++ map (fun ip => bin_frequency freq_start bin_hz (fst ip))
                      (retained_from from fields),
         powers ++ map snd (retained_from from fields)).
Proof.
  induction fields as [|s fields IH]; intros from freqs powers;
    cbn [List.length seq combine fold_left retained_from].
  - simpl. rewrite !app_nil_r. reflexivity.
  - rewrite add_bin_step. destruct (parsed_field s) as [p|].
    + rewrite IH. simpl. rewrite <- !app_assoc. reflexivity.
    + apply IH.
Qed.

(** [scan_band] on output with a data line returns the sweep of the last
    data line. *)
Lemma scan_band_chosen (out : string) (parts : list string) :
  PyStd.last_item (data_lines out) = inr parts ->
  scan_band (Returned out) = inr (sweep_of_line parts).
Proof.
  intros Hlast. unfold scan_band.
  assert (Hlen : 8 <= List.length parts).
  { pose proof (data_lines_fields out) as Hall.
    rewrite Forall_forall in Hall. apply Hall, last_item_in, Hlast. }
  destruct (data_lines out) as [|d ds] eqn:Ed; [discriminate|].
  rewrite Hlast. simpl. unfold sweep_of_line.
  destruct (header_cases parts Hlen)
    as [a [b [_ [_ [[fa [fb [_ [_ Hh]]]] | [_ Hh]]]]]]; rewrite Hh; simpl.
  - unfold PyStd.enumerate, retained. rewrite add_bin_fold. reflexivity.
  - reflexivity.
Qed.

(** [scan_band] on output without a data line returns the empty sweep. *)
Lemma scan_band_no_data (out : string) :
  data_lines out = [] -> scan_band (Returned out) = inr ([], []).
Proof. intros H. unfold scan_band. rewrite H. reflexivity. Qed.

(** [scan_band] returns whatever the tool printed. *)
Lemma scan_band_total (out : string) :
  exists freqs powers, scan_band (Returned out) = inr (freqs, powers).
Proof.
  destruct (data_lines out) as [|d ds] eqn:Ed.
  - exists [], []. apply scan_band_no_data, Ed.
  - destruct (last_item_total (data_lines out)) as [parts Hp];
      [rewrite Ed; discriminate|].
    rewrite (scan_band_chosen out parts Hp).
    destruct (sweep_of_line parts) as [freqs powers]. eauto.
Qed.

Lemma data_line_or_none (out : string) :
  data_lines out = [] \/
  exists parts, PyStd.last_item (data_lines out) = inr parts.
Proof.
  destruct (data_lines out) as [|d ds] eqn:Ed; [left; reflexivity|].
  right. apply last_item_total. discriminate.
Qed.

End ScanBand.

(** C2.  The end-to-end scenario: the line parses to four bins 25 kHz
    apart from 144 MHz with powers -70, -71, -50 and -69.5; with the margin
    of 3.5 dB the median is -69.75, the cutoff -66.25, and the one hit is
    the bin at 144.05 MHz with -50 dB. *)
Theorem end_to_end_scenario :
  scan_band
    (Returned
       "2024/01/01,00:00:00,144000000,148000000,25000,160,-70.0,-71.0,-50.0,-69.5")
  = inr ([144000000%float; 144025000%float; 144050000%float; 144075000%float],
         [(-70)%float; (-71)%float; (-50)%float; (-69.5)%float]) /\
  THRESHOLD_ABOVE_MEDIAN_DB CONFIG = 3.5%float /\
  PyStd.median [(-70)%float; (-71)%float; (-50)%float; (-69.5)%float]
  = inr (-69.75)%float /\
  cutoff_of CONFIG (-69.75)%float = (-66.25)%float /\
  detect_peaks CONFIG
    [144000000%float; 144025000%float; 144050000%float; 144075000%float]
    [(-70)%float; (-71)%float; (-50)%float; (-69.5)%float]
  = inr [(144050000%float, (-50)%float)].
Proof. repeat split; vm_compute; reflexivity. Qed.

(** ** Positions of the retained fields *)

Section Retained.

Lemma retained_from_length (fields : list string) (from from' : nat) :
  List.length (retained_from from fields)
  = List.length (retained_from from' fields).
Proof.
  revert from from'. induction fields as [|s fields IH]; intros from from';
    simpl; [reflexivity|].
  destruct (parsed_field s); simpl; [f_equal|]; apply IH.
Qed.



(** The positions of the retained values increase and lie within the
    line. *)
Lemma retained_from_positions (fields : list string) (from : nat) :
  StronglySorted lt (map fst (retained_from from fields)) /\
  Forall (fun i => from <= i < from + List.length fields)
         (map fst (retained_from from fields)).
Proof.
  revert from. induction fields as [|s fields IH]; intros from; simpl.
  - split; constructor.
  - destruct (IH (S from)) as [Hs Hb].
    assert (Hb' : Forall (fun i => from <= i < from + S (List.length fields))
                         (map fst (retained_from (S from) fields))).
    { eapply Forall_impl; [|exact Hb]. simpl. intros a Ha. lia. }
    destruct (parsed_field s); simpl.
    + split.
      * constructor; [exact Hs|].
        eapply Forall_impl; [|exact Hb]. simpl. intros a Ha. lia.
      * constructor; [lia|exact Hb'].
    + split; [exact Hs|exact Hb'].
Qed.

End Retained.

(** ** Increasing lists *)

Section Increasing.

Lemma increasing_strongly (l : list float) :
  increasing l = true ->
  StronglySorted (fun a b => (a <? b)%float = true) l.
Proof.
  induction l as [|x l IH]; intros H; [constructor|].
  destruct l as [|y l]; [repeat constructor|].
  cbn [increasing] in H. apply andb_true_iff in H. destruct H as [Hxy Hl].
  specialize (IH Hl). constructor; [exact IH|].
  constructor; [exact Hxy|].
  inversion IH as [|? ? _ Hall]; subst.
  eapply Forall_impl; [|exact Hall]. simpl.
  intros z Hz. exact (ltb_trans x y z Hxy Hz).
Qed.

Lemma strongly_increasing (l : list float) :
  StronglySorted (fun a b => (a <? b)%float = true) l ->
  increasing l = true.
Proof.
  induction 1 as [|x l Hs IH Hall]; [reflexivity|].
  destruct l as [|y l]; [reflexivity|].
  cbn [increasing]. inversion Hall; subst.
  apply andb_true_iff. split; assumption.
Qed.

Lemma strongly_seq {A : Type} (R : A -> A -> Prop) (g : nat -> A) (n : nat) :
  forall from,
    StronglySorted R (map g (seq from n)) ->
    forall i j, from <= i -> i < j -> j < from + n -> R (g i) (g j).
Proof.
  induction n as [|n IH]; intros from Hs i j Hi Hij Hj; [lia|].
  simpl in Hs. inversion Hs as [|? ? Hs' Hall]; subst.
  destruct (Nat.eq_dec i from) as [->|Hne].
  - rewrite Forall_forall in Hall. apply Hall.
    apply in_map, in_seq. lia.
  - apply (IH (S from) Hs'); lia.
Qed.

Lemma strongly_map_positions {A : Type} (R : A -> A -> Prop) (g : nat -> A)
    (n : nat) (l : list nat) :
  (forall i j, i < j -> j < n -> R (g i) (g j)) ->
  StronglySorted lt l -> Forall (fun i => i < n) l ->
  StronglySorted R (map g l).
Proof.
  intros HR Hs Hb. induction Hs as [|x l Hs IH Hall]; simpl; [constructor|].
  inversion Hb as [|? ? Hx Hb']; subst.
  constructor; [apply IH; exact Hb'|].
  apply Forall_map. rewrite Forall_forall in *.
  intros y Hy. apply HR; [apply Hall, Hy|apply Hb', Hy].
Qed.

End Increasing.






(** C8, as the specification states it, fails: with a bin width of zero
    every bin has the start frequency. *)
Lemma zero_bin_width_repeats_frequency :
  exists freqs powers,
    scan_band (Returned "d,t,100,200,0,2,-70,-71") = inr (freqs, powers) /\
    freqs = [100%float; 100%float] /\
    increasing freqs = false.
Proof.
  exists [100%float; 100%float], [(-70)%float; (-71)%float].
  split; [vm_compute; reflexivity|].
  split; [reflexivity|]. vm_compute. reflexivity.
Qed.

(** C8, amended.  When the bins of the chosen data line have increasing
    frequencies (each smaller than the next, in float arithmetic, as for a
    positive bin width that rounding does not absorb), the frequencies of
    the parsed sweep are strictly increasing: each is smaller than all that
    follow. *)
Theorem increasing_bins_increasing_sweep (out : string)
    (freqs powers : list float) :
  scan_band (Returned out) = inr (freqs, powers) ->
  (forall parts, PyStd.last_item (data_lines out) = inr parts ->
                 increasing (bin_grid parts) = true) ->
  StronglySorted (fun a b => (a <? b)%float = true) freqs /\
  increasing freqs = true.
Proof.
  intros Hs Hgrid.
  assert (H : StronglySorted (fun a b => (a <? b)%float = true) freqs).
  { destruct (data_line_or_none out) as [Ed | [parts Hlast]].
    - rewrite (scan_band_no_data out Ed) in Hs. injection Hs as <- <-.
      constructor.
    - rewrite (scan_band_chosen out parts Hlast) in Hs.
      specialize (Hgrid parts Hlast).
      unfold sweep_of_line in Hs. unfold bin_grid in Hgrid.
      destruct (header parts) as [e|[freq_start bin_hz]].
      + injection Hs as <- <-. constructor.
      + injection Hs as <- <-.
        rewrite <- map_map.
        destruct (retained_from_positions (skipn 6 parts) 0) as [Hpos Hbnd].
        apply (strongly_map_positions _ _ (List.length (skipn 6 parts))).
        * intros i j Hij Hj.
          apply (strongly_seq _ _ _ 0 (increasing_strongly _ Hgrid)); lia.
        * exact Hpos.
        * eapply Forall_impl; [|exact Hbnd]. simpl. intros a Ha. lia. }
  split; [exact H|apply strongly_increasing, H].
Qed.

Lemma increasing_bins_increasing_sweep_witness :
  StronglySorted (fun a b => (a <? b)%float = true)
    [144000000%float; 144025000%float; 144050000%float; 144075000%float] /\
  increasing
    [144000000%float; 144025000%float; 144050000%float; 144075000%float]
  = true.
Proof.
  apply (increasing_bins_increasing_sweep
           "2024/01/01,00:00:00,144000000,148000000,25000,160,-70.0,-71.0,-50.0,-69.5"
           _ [(-70)%float; (-71)%float; (-50)%float; (-69.5)%float]).
  - vm_compute. reflexivity.
  - intros parts H. vm_compute in H. injection H as <-.
    vm_compute. reflexivity.
Defined.

(** C10.  Whatever the tool printed, and also when it failed, [scan_band]
    returns two lists of the same length: each power has its frequency at
    the same position, and [zip] pairs all of them. *)
Theorem scan_band_lists_paired :
  (forall out, exists freqs powers,
      scan_band (Returned out) = inr (freqs, powers) /\
      List.length freqs = List.length powers /\
      List.length (combine freqs powers) = List.length powers /\
      forall k p, nth_error powers k = Some p ->
                  exists f, nth_error freqs k = Some f /\
                            nth_error (combine freqs powers) k = Some (f, p)) /\
  (forall output, scan_band (CalledProcessError output) = inr ([], [])).
Proof.
  split; [|reflexivity].
  intros out. destruct (scan_band_total out) as [freqs [powers Hs]].
  exists freqs, powers. split; [exact Hs|].
  assert (Hlen : List.length freqs = List.length powers).
  { destruct (data_line_or_none out) as [Ed | [parts Hlast]].
    - rewrite (scan_band_no_data out Ed) in Hs. injection Hs as <- <-.
      reflexivity.
    - rewrite (scan_band_chosen out parts Hlast) in Hs.
      unfold sweep_of_line in Hs.
      destruct (header parts) as [e|[freq_start bin_hz]];
        injection Hs as <- <-; [reflexivity|].
      rewrite !length_map. reflexivity. }
  split; [exact Hlen|]. split.
  - rewrite length_combine. lia.
  - intros k p Hp.
    assert (Hk : k < List.length freqs).
    { rewrite Hlen. apply nth_error_Some. congruence. }
    destruct (nth_error freqs k) as [f|] eqn:Ef;
      [|apply nth_error_None in Ef; lia].
    exists f. split; [reflexivity|].
    clear Hs. revert k powers Hp Hlen Hk Ef.
    induction freqs as [|f0 freqs IH]; intros k powers Hp Hlen Hk Ef;
      [simpl in Hk; lia|].
    destruct powers as [|p0 powers]; [discriminate|].
    destruct k as [|k]; simpl in *.
    + congruence.
    + apply IH; try assumption; lia.
Qed.

(** ** The sort of the watch loop *)

Section SortHits.

Lemma place_perm (h : float * float) (l : list (float * float)) :
  Permutation (h :: l) (place h l).
Proof.
  induction l as [|k l IH]; simpl; [apply Permutation_refl|].
  destruct (snd h <? snd k)%float; [|apply Permutation_refl].
  apply perm_trans with (k :: h :: l); [apply perm_swap|].
  apply perm_skip, IH.
Qed.

(** The sort rearranges the hits. *)
Lemma sort_hits_perm (hits : list (float * float)) :
  Permutation hits (sort_hits hits).
Proof.
  induction hits as [|h hits IH]; simpl; [apply perm_nil|].
  apply perm_trans with (h :: sort_hits hits); [apply perm_skip, IH|].
  apply place_perm.
Qed.

Lemma place_descending (h : float * float) (l : list (float * float)) :
  not_nan (snd h) -> Forall (fun k => not_nan (snd k)) l ->
  descending l -> descending (place h l).
Proof.
  unfold descending. intros Hh Hl Hd.
  induction Hd as [|k l Hd IH Hall]; simpl; [repeat constructor|].
  inversion Hl as [|? ? Hk Hl']; subst.
  destruct (snd h <? snd k)%float eqn:E.
  - constructor; [apply IH; exact Hl'|].
    apply (Permutation_Forall (place_perm h l)).
    constructor; [apply ltb_leb, E|exact Hall].
  - assert (Hkh : (snd k <=? snd h)%float = true)
      by (apply not_ltb_leb; assumption).
    constructor; [constructor; assumption|].
    constructor; [exact Hkh|].
    eapply Forall_impl; [|exact Hall]. simpl.
    intros z Hz. exact (leb_trans _ _ _ Hz Hkh).
Qed.

(** On hits whose powers are numbers the sort puts the strongest first. *)
Lemma sort_hits_descending (hits : list (float * float)) :
  Forall (fun k => not_nan (snd k)) hits -> descending (sort_hits hits).
Proof.
  induction hits as [|h hits IH]; intros H; simpl; [constructor|].
  inversion H; subst.
  apply place_descending; try assumption.
  - apply (Permutation_Forall (sort_hits_perm hits)). assumption.
  - apply IH. assumption.
Qed.

(** The power of a hit is a number. *)
Lemma detect_peaks_numbers (cfg : Config) (freqs powers : list float)
    (hits : list (float * float)) :
  detect_peaks cfg freqs powers = inr hits ->
  Forall (fun k => not_nan (snd k)) hits.
Proof.
  intros H. destruct powers as [|p powers].
  - injection H as <-. constructor.
  - destruct (detect_peaks_filter cfg freqs (p :: powers)) as [m [_ Hd]];
      [discriminate|].
    rewrite Hd in H. injection H as <-.
    apply Forall_forall. intros k Hk. apply filter_In in Hk.
    destruct Hk as [_ Hk]. apply (leb_not_nan _ _ Hk).
Qed.

End SortHits.



(** ** [speak] *)

Section Speak.

Variable cfg : Config.

Lemma speak_suppressed (now : float) (espeak : popen_result)
    (message : string) (st : AlertState) :
  dispatched cfg now st = false ->
  speak cfg now espeak message st = (st, []).
Proof.
  unfold dispatched, speak. destruct (ENABLE_TTS_ALERTS cfg); simpl;
    [|reflexivity].
  destruct (now - last_tts_time st <? TTS_COOLDOWN_SEC cfg)%float; simpl;
    [reflexivity|discriminate].
Qed.

Lemma speak_dispatched (now : float) (espeak : popen_result)
    (message : string) (st : AlertState) :
  dispatched cfg now st = true ->
  speak cfg now espeak message st =
  ({| last_tts_time := now |},
   Print (String.append "[TTS] " message) ::
   match espeak with
   | Started => [Popen [ESPEAK; "-s"; "170"; "-a"; "200"; message]]
   | NotInstalled =>
       [Print "[!] espeak not found. Install with: sudo apt install espeak"]
   end).
Proof.
  unfold dispatched, speak. destruct (ENABLE_TTS_ALERTS cfg); simpl;
    [|discriminate].
  destruct (now - last_tts_time st <? TTS_COOLDOWN_SEC cfg)%float; simpl;
    [discriminate|].
  destruct espeak; reflexivity.
Qed.

Lemma alert_times_spaced (calls : list attempt) :
  forall st,
    Sorted (fun a b => (b - a <? TTS_COOLDOWN_SEC cfg)%float = false)
           (last_tts_time st :: alert_times cfg calls st).
Proof.
  induction calls as [|c calls IH]; intros st; simpl.
  - repeat constructor.
  - destruct (dispatched cfg (attempt_time c) st) eqn:E.
    + rewrite speak_dispatched by exact E. simpl.
      constructor; [apply (IH {| last_tts_time := attempt_time c |})|].
      constructor. unfold dispatched in E.
      apply andb_true_iff in E. destruct E as [_ E].
      apply negb_true_iff in E. exact E.
    + rewrite speak_suppressed by exact E. apply IH.
Qed.

End Speak.

(** C5, as the specification states it, fails: of two attempts made five
    seconds apart the first is not dispatched when it falls within the
    cooldown of an earlier alert, here the start-up announcement two
    seconds before it. *)
Lemma spaced_attempts_not_both_dispatched :
  exists st,
    speak CONFIG 1700000000 Started "RTL S D R watcher started."
          initial_alert_state
    = (st, [Print "[TTS] RTL S D R watcher started.";
            Popen ["espeak"; "-s"; "170"; "-a"; "200";
                   "RTL S D R watcher started."]]) /\
    ENABLE_TTS_ALERTS CONFIG = true /\
    (TTS_COOLDOWN_SEC CONFIG <=? 1700000007 - 1700000002)%float = true /\
    speak CONFIG 1700000002 Started "Activity detected." st = (st, []) /\
    spoken (snd (speak CONFIG 1700000007 Started "Activity detected." st))
    = true.
Proof.
  eexists. split; [vm_compute; reflexivity|].
  repeat split; vm_compute; reflexivity.
Qed.

(** C5, amended.  With [ENABLE_TTS_ALERTS] on: a call made less than
    [TTS_COOLDOWN_SEC] seconds after the last alert outputs nothing and
    leaves the alert state as it was; a call made [TTS_COOLDOWN_SEC]
    seconds or more after the last alert is dispatched, so two calls that
    far apart are both dispatched when the first one is; and in any series
    of calls no alert comes less than [TTS_COOLDOWN_SEC] seconds after the
    alert before it. *)
Theorem speak_rate_limited (cfg : Config) :
  ENABLE_TTS_ALERTS cfg = true ->
  (forall now espeak message st,
      (now - last_tts_time st <? TTS_COOLDOWN_SEC cfg)%float = true ->
      speak cfg now espeak message st = (st, [])) /\
  (forall now espeak message st,
      (TTS_COOLDOWN_SEC cfg <=? now - last_tts_time st)%float = true ->
      exists out,
        speak cfg now espeak message st
        = ({| last_tts_time := now |},
           Print (String.append "[TTS] " message) :: out)) /\
  (forall t1 t2 e1 e2 m1 m2 st,
      (TTS_COOLDOWN_SEC cfg <=? t1 - last_tts_time st)%float = true ->
      (TTS_COOLDOWN_SEC cfg <=? t2 - t1)%float = true ->
      exists out1 out2,
        speak_all cfg [Build_attempt t1 e1 m1; Build_attempt t2 e2 m2] st
        = ({| last_tts_time := t2 |},
           [Print (String.append "[TTS] " m1) :: out1;
            Print (String.append "[TTS] " m2) :: out2])) /\
  (forall calls st,
      Sorted (fun a b => (b - a <? TTS_COOLDOWN_SEC cfg)%float = false)
             (last_tts_time st :: alert_times cfg calls st)).
Proof.
  intros Hon.
  assert (Hlate : forall now st,
             (TTS_COOLDOWN_SEC cfg <=? now - last_tts_time st)%float = true ->
             dispatched cfg now st = true).
  { intros now st H. unfold dispatched. rewrite Hon.
    rewrite (leb_not_ltb _ _ H). reflexivity. }
  split; [|split; [|split]].
  - intros now espeak message st H. apply speak_suppressed.
    unfold dispatched. rewrite H, Hon. reflexivity.
  - intros now espeak message st H.
    rewrite (speak_dispatched cfg now espeak message st (Hlate _ _ H)).
    eexists. reflexivity.
  - intros t1 t2 e1 e2 m1 m2 st H1 H2. simpl.
    rewrite (speak_dispatched cfg t1 e1 m1 st (Hlate _ _ H1)).
    rewrite (speak_dispatched cfg t2 e2 m2 {| last_tts_time := t1 |});
      [|apply Hlate; exact H2].
    eexists. eexists. reflexivity.
  - apply alert_times_spaced.
Qed.

Lemma speak_rate_limited_witness :
  speak CONFIG 1700000002 Started "Activity detected."
        {| last_tts_time := 1700000000 |}
  = ({| last_tts_time := 1700000000 |}, []).
Proof.
  apply (proj1 (speak_rate_limited CONFIG eq_refl)).
  vm_compute. reflexivity.
Defined.

(** C6, as the specification states it, fails: when espeak is not
    installed nothing is spoken, and [last_tts_time] is set all the same. *)
Lemma failed_attempt_sets_alert_time :
  exists st out,
    speak CONFIG 1700000000 NotInstalled "Activity detected."
          initial_alert_state = (st, out) /\
    spoken out = false /\
    last_tts_time st = 1700000000%float /\
    st <> initial_alert_state.
Proof.
  eexists. eexists. split; [vm_compute; reflexivity|].
  split; [reflexivity|]. split; [reflexivity|].
  intros H. apply (f_equal last_tts_time) in H.
  apply (f_equal (fun x => (x =? 0)%float)) in H.
  vm_compute in H. discriminate.
Qed.

(** C6, amended.  [last_tts_time] is set to the time of the call exactly
    when the call is dispatched, that is when alerts are enabled and the
    cooldown is over, before espeak is started and whether or not it can
    be: a call with alerts disabled or within the cooldown leaves it
    unchanged and outputs nothing, and an alert is spoken exactly when the
    call is dispatched and espeak starts. *)
Theorem alert_time_set_when_dispatched (cfg : Config) (now : float)
    (espeak : popen_result) (message : string) (st : AlertState) :
  fst (speak cfg now espeak message st)
  = (if dispatched cfg now st then {| last_tts_time := now |} else st) /\
  (snd (speak cfg now espeak message st) = [] <->
   dispatched cfg now st = false) /\
  spoken (snd (speak cfg now espeak message st))
  = dispatched cfg now st
    && match espeak with Started => true | NotInstalled => false end.
Proof.
  destruct (dispatched cfg now st) eqn:E.
  - rewrite (speak_dispatched cfg now espeak message st E).
    split; [reflexivity|]. split; [split; discriminate|].
    destruct espeak; reflexivity.
  - rewrite (speak_suppressed cfg now espeak message st E).
    split; [reflexivity|]. split; [split; reflexivity|reflexivity].
Qed.

(** ** [listen_to_frequency] *)

Section Listener.

Variable seconds : float.
Variable owned : option pid.
Variable fresh : pid.
Hypothesis owned_older : forall p, owned = Some p -> p < fresh.

Lemma is_alive_spec (p : pid) (m : Machine) :
  is_alive p m = true <-> In p (alive m).
Proof.
  unfold is_alive. rewrite existsb_exists. split.
  - intros [q [Hq E]]. apply Nat.eqb_eq in E. subst q. exact Hq.
  - intros H. exists p. split; [exact H|apply Nat.eqb_refl].
Qed.

Lemma not_alive_spec (p : pid) (m : Machine) :
  is_alive p m = false <-> ~ In p (alive m).
Proof.
  rewrite <- is_alive_spec. destruct (is_alive p m); split; intros H;
    congruence.
Qed.

Lemma owned_and_running_some (m : Machine) (p : pid) :
  owned_and_running m = Some p ->
  current_audio_proc m = Some p /\ In p (alive m).
Proof.
  unfold owned_and_running. destruct (current_audio_proc m) as [q|];
    [|discriminate].
  destruct (is_alive q m) eqn:E; [|discriminate].
  intros H. injection H as <-. split; [reflexivity|].
  apply is_alive_spec, E.
Qed.

Lemma owned_and_running_none (m : Machine) (p : pid) :
  owned_and_running m = None -> current_audio_proc m = Some p ->
  ~ In p (alive m).
Proof.
  unfold owned_and_running. intros H Hc. rewrite Hc in H.
  destruct (is_alive p m) eqn:E; [discriminate|].
  apply not_alive_spec, E.
Qed.

(** What was done about the previous pipeline stays done when the set of
    live pipelines shrinks or gains the new pid. *)
Lemma previous_handled_alive (m m' : Machine) (before : list action) :
  (forall p, owned = Some p -> In p (alive m') -> In p (alive m)) ->
  previous_handled owned m before -> previous_handled owned m' before.
Proof.
  unfold previous_handled. destruct owned as [p|]; [|easy].
  intros Hsub [H | [H Hn]]; [left; exact H|].
  right. split; [exact H|]. intros Hin. apply Hn, Hsub; [reflexivity|exact Hin].
Qed.

Lemma own_handled_alive (m m' : Machine) (after : list action) :
  (In fresh (alive m') -> In fresh (alive m)) ->
  own_handled fresh m after -> own_handled fresh m' after.
Proof.
  unfold own_handled. intros Hsub [H | [H Hn]]; [left; exact H|].
  right. split; [exact H|]. intros Hin. apply Hn, Hsub, Hin.
Qed.

(** The happenings around the listener keep the invariant. *)
Lemma environment_keeps_invariant (m : Machine) (h : happening) :
  h <> Listener ->
  listener_invariant owned fresh m ->
  listener_invariant owned fresh (step seconds m h).
Proof.
  intros Hh Hinv.
  assert (Hsub : forall q, In q (alive (step seconds m h)) -> In q (alive m)).
  { destruct h; simpl; try congruence; try easy.
    intros q Hq. apply filter_In in Hq. apply Hq. }
  assert (Hpt : at_point (step seconds m h) = at_point m)
    by (destruct h; simpl; congruence).
  assert (Hcur : current_audio_proc (step seconds m h) = current_audio_proc m)
    by (destruct h; simpl; congruence).
  assert (Hnext : next_pid (step seconds m h) = next_pid m)
    by (destruct h; simpl; congruence).
  assert (Hperf : performed (step seconds m h) = performed m)
    by (destruct h; simpl; congruence).
  assert (Hprev : forall before,
             previous_handled owned m before ->
             previous_handled owned (step seconds m h) before).
  { intros before. apply previous_handled_alive. intros p _. apply Hsub. }
  unfold listener_invariant in *. rewrite Hpt, Hcur, Hnext, Hperf.
  destruct (at_point m); try exact Hinv;
    try (destruct Hinv as [Hc [before [Hp Hb]]]; split; [exact Hc|];
         exists before; split; [exact Hp|apply Hprev, Hb]).
  - destruct Hinv as [Hc [Hn Hb]]. repeat split; try assumption.
    apply Hprev, Hb.
  - destruct Hinv as [Hq [Hc [before [Hp Hb]]]].
    repeat split; try assumption.
    exists before. split; [exact Hp|apply Hprev, Hb].
  - destruct Hinv as [Hc [before [after [Hp [Hb Ha]]]]].
    split; [exact Hc|]. exists before, after.
    split; [exact Hp|]. split; [apply Hprev, Hb|].
    eapply own_handled_alive; [|exact Ha]. apply Hsub.
Qed.

(** Each statement of the listener keeps the invariant. *)
Lemma listener_keeps_invariant (m : Machine) :
  listener_invariant owned fresh m ->
  listener_invariant owned fresh (step_listener seconds m).
Proof.
  unfold listener_invariant, step_listener.
  destruct (at_point m) eqn:Ept; intros Hinv.
  - (* AtEntry *)
    destruct Hinv as [Hc [Hn Hp]].
    destruct (owned_and_running m) as [p|] eqn:Eo; simpl.
    + destruct (owned_and_running_some m p Eo) as [Hcp _].
      repeat split; congruence.
    + repeat split; try assumption.
      unfold previous_handled. destruct owned as [p|]; [|exact Hp].
      right. split; [exact Hp|].
      apply (owned_and_running_none m p Eo Hc).
  - (* KillPrevious *)
    destruct Hinv as [Ho [Hc [Hn Hp]]].
    unfold killpg. destruct (is_alive p m) eqn:Ea; simpl.
    + repeat split; try assumption.
      unfold previous_handled. rewrite Ho. left. rewrite Hp. reflexivity.
    + repeat split; try assumption.
      unfold previous_handled. rewrite Ho. right.
      split; [exact Hp|apply not_alive_spec, Ea].
  - (* Spawn *)
    destruct Hinv as [Hc [Hn Hb]]. simpl.
    split; [congruence|]. exists (performed m).
    split; [rewrite Hn; reflexivity|].
    eapply previous_handled_alive; [|exact Hb]. simpl.
    intros p Hp Hin. apply in_app_or in Hin. destruct Hin as [Hin|Hin];
      [exact Hin|].
    destruct Hin as [Hin|[]]. specialize (owned_older p Hp). lia.
  - (* ReadT0 *) simpl. exact Hinv.
  - (* LoopTime *)
    destruct (clock m - t0 m <? seconds)%float; simpl; exact Hinv.
  - (* LoopStop *)
    destruct (stop_requested m); simpl; exact Hinv.
  - (* LoopPoll *)
    destruct (owned_and_running m); simpl; exact Hinv.
  - (* Sleep *) simpl. exact Hinv.
  - (* Finally *)
    destruct Hinv as [Hc [before [Hp Hb]]].
    destruct (owned_and_running m) as [p|] eqn:Eo; simpl.
    + destruct (owned_and_running_some m p Eo) as [Hcp _].
      split; [congruence|]. split; [exact Hc|].
      exists before. split; assumption.
    + split; [exact Hc|]. exists before, [].
      split; [exact Hp|]. split; [exact Hb|].
      right. split; [reflexivity|].
      apply (owned_and_running_none m fresh Eo Hc).
  - (* KillOwn *)
    destruct Hinv as [Hq [Hc [before [Hp Hb]]]]. subst p.
    unfold killpg. destruct (is_alive fresh m) eqn:Ea; simpl.
    + split; [exact Hc|]. exists before, [Sigterm fresh].
      split; [rewrite Hp, <- app_assoc; reflexivity|].
      split; [exact Hb|]. left. reflexivity.
    + split; [exact Hc|]. exists before, [].
      split; [exact Hp|]. split; [exact Hb|].
      right. split; [reflexivity|apply not_alive_spec, Ea].
  - (* Done *)
    rewrite Ept. exact Hinv.
Qed.

Lemma step_keeps_invariant (m : Machine) (h : happening) :
  listener_invariant owned fresh m ->
  listener_invariant owned fresh (step seconds m h).
Proof.
  destruct h; try (apply environment_keeps_invariant; discriminate).
  apply listener_keeps_invariant.
Qed.

(** The invariant holds throughout a call, under every schedule. *)
Lemma call_keeps_invariant (schedule : list happening) (m : Machine) :
  listener_invariant owned fresh m ->
  listener_invariant owned fresh (listen_to_frequency seconds schedule m).
Proof.
  unfold listen_to_frequency. revert m.
  induction schedule as [|h schedule IH]; intros m Hinv; simpl;
    [exact Hinv|].
  apply IH, step_keeps_invariant, Hinv.
Qed.

End Listener.

(** Once the clock has passed the deadline, each statement of the loop
    brings the listener closer to its return. *)
Lemma late_step (seconds : float) (m : Machine) (n : nat) :
  (clock m - t0 m <? seconds)%float = false ->
  statements_left (at_point m) <= S n -> S n <= 6 ->
  (clock (step_listener seconds m) - t0 (step_listener seconds m)
   <? seconds)%float = false /\
  statements_left (at_point (step_listener seconds m)) <= n.
Proof.
  intros Hlate Hleft Hn. unfold step_listener.
  destruct (at_point m) eqn:Ept; simpl in Hleft; try lia.
  - rewrite Hlate. simpl. split; [exact Hlate|lia].
  - destruct (stop_requested m); simpl; split; try exact Hlate; lia.
  - destruct (owned_and_running m); simpl; split; try exact Hlate; lia.
  - simpl. split; [exact Hlate|lia].
  - destruct (owned_and_running m); simpl; split; try exact Hlate; lia.
  - unfold killpg. destruct (is_alive p m); simpl; split;
      try exact Hlate; lia.
  - rewrite Ept. simpl. split; [exact Hlate|lia].
Qed.

Lemma late_steps (seconds : float) (n : nat) :
  forall m,
    (clock m - t0 m <? seconds)%float = false ->
    statements_left (at_point m) <= n -> n <= 6 ->
    at_point (listen_to_frequency seconds (repeat Listener n) m) = Done.
Proof.
  unfold listen_to_frequency.
  induction n as [|n IH]; intros m Hlate Hleft Hn; simpl.
  - destruct (at_point m); simpl in Hleft; try lia. reflexivity.
  - destruct (late_step seconds m n Hlate Hleft Hn) as [Hlate' Hleft'].
    apply IH; [exact Hlate'|exact Hleft'|lia].
Qed.

(** X13.  So the listener, wherever it is in its loop, returns within six
    statements of the deadline. *)
Lemma listener_returns (seconds : float) (m : Machine) :
  (clock m - t0 m <? seconds)%float = false ->
  statements_left (at_point m) <= 6 ->
  at_point
    (listen_to_frequency seconds
       [Listener; Listener; Listener; Listener; Listener; Listener] m)
  = Done.
Proof.
  intros Hlate Hleft.
  apply (late_steps seconds 6 m Hlate Hleft). lia.
Qed.




(* ================================================================== *)
(** * Further properties of the code *)

(** ** The lines [scan_band] keeps *)

Section DataLines.




End DataLines.


(** ** Lines whose power fields all parse *)




(** ** The strongest hit *)

(** X3.  The hit the watch loop reports first, the one it speaks of, is a
    sample of the sweep, has a power that is a number, and no sample of
    the sweep has a greater power. *)
Theorem strongest_hit_is_maximal (cfg : Config) (freqs powers : list float)
    (h : float * float) (rest : list (float * float)) :
  reported_hits cfg freqs powers = inr (h :: rest) ->
  In h (combine freqs powers) /\
  not_nan (snd h) /\
  forall f p, In (f, p) (combine freqs powers) -> (snd h <? p)%float = false.
Proof.
  intros Hr. unfold reported_hits in Hr.
  destruct (detect_peaks_total cfg freqs powers) as [hits Hd].
  rewrite Hd in Hr. simpl in Hr. injection Hr as Hsort.
  pose proof (detect_peaks_numbers cfg freqs powers hits Hd) as Hnum.
  pose proof (sort_hits_descending hits Hnum) as Hdesc.
  pose proof (sort_hits_perm hits) as Hperm.
  rewrite Hsort in Hdesc, Hperm.
  assert (Hne : powers <> []).
  { intros ->. simpl in Hd. injection Hd as <-.
    apply Permutation_nil in Hperm. discriminate. }
  destruct (detect_peaks_filter cfg freqs powers Hne) as [m [_ Hf]].
  rewrite Hf in Hd. injection Hd as Hhits.
  assert (Hh : In h hits).
  { apply (Permutation_in h (Permutation_sym Hperm)). left. reflexivity. }
  assert (Hnh : not_nan (snd h)).
  { rewrite Forall_forall in Hnum. apply Hnum, Hh. }
  rewrite <- Hhits in Hh. apply filter_In in Hh. destruct Hh as [Hin Hcut].
  split; [exact Hin|]. split; [exact Hnh|].
  intros f p Hs.
  destruct (cutoff_of cfg m <=? p)%float eqn:Ec.
  - assert (Hhit : In (f, p) (h :: rest)).
    { apply (Permutation_in _ Hperm). rewrite <- Hhits.
      apply filter_In. split; [exact Hs|exact Ec]. }
    apply leb_not_ltb. destruct Hhit as [Heq | Hhit].
    + subst h. simpl in *. apply (eqb_leb p p Hnh).
    + unfold descending in Hdesc.
      inversion Hdesc as [|? ? _ Hall]; subst.
      rewrite Forall_forall in Hall. apply (Hall (f, p) Hhit).
  - destruct (snd h <? p)%float eqn:El; [|reflexivity].
    rewrite (leb_trans _ _ _ Hcut (ltb_leb _ _ El)) in Ec. discriminate.
Qed.

Lemma strongest_hit_is_maximal_witness :
  In (144050000%float, (-50)%float)
     (combine [144000000%float; 144025000%float; 144050000%float;
               144075000%float]
              [(-70)%float; (-71)%float; (-50)%float; (-69.5)%float]) /\
  not_nan (snd (144050000%float, (-50)%float)) /\
  forall f p,
    In (f, p)
       (combine [144000000%float; 144025000%float; 144050000%float;
                 144075000%float]
                [(-70)%float; (-71)%float; (-50)%float; (-69.5)%float]) ->
    (snd (144050000%float, (-50)%float) <? p)%float = false.
Proof.
  apply (strongest_hit_is_maximal CONFIG _ _ _ []).
  vm_compute. reflexivity.
Defined.

(** ** The noise floor is the statistical median *)

Section MedianOrder.

Lemma strongly_sorted_nth {A : Type} (R : A -> A -> Prop) (l : list A) :
  StronglySorted R l ->
  forall j k a b,
    j < k -> nth_error l j = Some a -> nth_error l k = Some b -> R a b.
Proof.
  induction 1 as [|x l Hs IH Hall]; intros j k a b Hjk Ha Hb.
  - destruct j; discriminate.
  - destruct k as [|k]; [lia|]. simpl in Hb.
    destruct j as [|j]; simpl in Ha.
    + injection Ha as <-. rewrite Forall_forall in Hall.
      apply Hall. apply (nth_error_In _ _ Hb).
    + apply (IH j k); [lia|assumption|assumption].
Qed.

Lemma filter_all_length {A : Type} (P : A -> bool) (l : list A) :
  (forall x, In x l -> P x = true) ->
  List.length (filter P l) = List.length l.
Proof.
  induction l as [|x l IH]; intros H; simpl; [reflexivity|].
  rewrite (H x (or_introl eq_refl)). simpl. f_equal.
  apply IH. intros y Hy. apply H. right. exact Hy.
Qed.

Lemma filter_length_perm {A : Type} (P : A -> bool) (l l' : list A) :
  Permutation l l' ->
  List.length (filter P l) = List.length (filter P l').
Proof.
  induction 1 as [|x l l' _ IH|x y l|l l' l'' _ IH1 _ IH2]; simpl.
  - reflexivity.
  - destruct (P x); simpl; congruence.
  - destruct (P x), (P y); reflexivity.
  - congruence.
Qed.

Variable s : list float.
Hypothesis s_sorted :
  StronglySorted (fun a b => (a <=? b)%float = true) s.
Hypothesis s_numbers : Forall not_nan s.

(** In a sorted list the values up to a position are at most the value
    at that position. *)
Lemma count_at_most (i : nat) (a : float) :
  nth_error s i = Some a ->
  S i <= List.length (filter (fun x => (x <=? a)%float) s).
Proof.
  intros Ha.
  assert (Hi : i < List.length s) by (apply nth_error_Some; congruence).
  rewrite <- (firstn_skipn (S i) s) at 1.
  rewrite filter_app, length_app, filter_all_length.
  - rewrite length_firstn. lia.
  - intros x Hx. apply In_nth_error in Hx. destruct Hx as [j Hj].
    assert (Hjlt : j < S i).
    { assert (j < List.length (firstn (S i) s))
        by (apply nth_error_Some; congruence).
      rewrite length_firstn in *. lia. }
    rewrite nth_error_firstn in Hj.
    destruct (j <? S i) eqn:E; [|apply Nat.ltb_ge in E; lia].
    destruct (Nat.eq_dec j i) as [->|Hne].
    + rewrite Ha in Hj. injection Hj as <-.
      rewrite Forall_forall in s_numbers.
      apply (eqb_leb a a). apply s_numbers. apply (nth_error_In _ _ Ha).
    + apply (strongly_sorted_nth _ _ s_sorted j i); [lia|exact Hj|exact Ha].
Qed.

(** In a sorted list the values from a position on are at least the value
    at that position. *)
Lemma count_at_least (i : nat) (b : float) :
  nth_error s i = Some b ->
  List.length s - i <= List.length (filter (fun x => (b <=? x)%float) s).
Proof.
  intros Hb.
  rewrite <- (firstn_skipn i s) at 2.
  rewrite filter_app, length_app, (filter_all_length _ (skipn i s)).
  - rewrite length_skipn. lia.
  - intros x Hx. apply In_nth_error in Hx. destruct Hx as [j Hj].
    rewrite nth_error_skipn in Hj.
    destruct j as [|j].
    + rewrite Nat.add_0_r, Hb in Hj. injection Hj as <-.
      rewrite Forall_forall in s_numbers.
      apply (eqb_leb b b). apply s_numbers. apply (nth_error_In _ _ Hb).
    + apply (strongly_sorted_nth _ _ s_sorted i (i + S j));
        [lia|exact Hb|exact Hj].
Qed.

End MedianOrder.

(** X4.  On powers that are numbers the noise floor is the statistical
    median: there are two powers [a <= b] of the sweep, with at least half
    of the powers at most [a] and at least half at least [b]; for an odd
    number of powers they are the same and the median is that power, for
    an even number the median is their mean. *)
Theorem median_is_middle (data : list float) :
  data <> [] -> Forall not_nan data ->
  exists a b,
    In a data /\ In b data /\ (a <=? b)%float = true /\
    PyStd.median data
    = inr (if List.length data mod 2 =? 1 then a else ((a + b) / 2)%float) /\
    (List.length data mod 2 = 1 -> a = b) /\
    List.length data
    <= 2 * List.length (filter (fun x => (x <=? a)%float) data) /\
    List.length data
    <= 2 * List.length (filter (fun x => (b <=? x)%float) data).
Proof.
  intros Hne Hnum.
  pose proof (sorted_perm data) as Hperm.
  assert (Hsnum : Forall not_nan (PyStd.sorted data))
    by (apply (Permutation_Forall Hperm), Hnum).
  assert (Hsorted : StronglySorted (fun a b => (a <=? b)%float = true)
                                   (PyStd.sorted data)).
  { apply Sorted_StronglySorted; [|apply sorted_ordered, Hnum].
    intros x y z. apply leb_trans. }
  pose proof (sorted_length data) as Hlen.
  assert (Hpos : 0 < List.length data)
    by (destruct data; [congruence|simpl; lia]).
  unfold PyStd.median. rewrite Hlen.
  set (n := List.length data) in *.
  destruct (n =? 0) eqn:E0; [apply Nat.eqb_eq in E0; lia|].
  assert (Hhalf : n / 2 < n) by (apply Nat.div_lt; lia).
  pose proof (Nat.div_mod_eq n 2) as Hdiv.
  destruct (n mod 2 =? 1) eqn:E1.
  - apply Nat.eqb_eq in E1.
    destruct (index_in_range (PyStd.sorted data) (n / 2)) as [a [Ia Na]];
      [lia|].
    exists a, a. rewrite Ia.
    assert (Hin : In a data).
    { apply (Permutation_in a (Permutation_sym Hperm)).
      apply (nth_error_In _ _ Na). }
    split; [exact Hin|]. split; [exact Hin|].
    split; [apply (eqb_leb a a); rewrite Forall_forall in Hnum;
            apply Hnum, Hin|].
    split; [reflexivity|]. split; [reflexivity|].
    pose proof (count_at_most _ Hsorted Hsnum _ _ Na) as Hlo.
    pose proof (count_at_least _ Hsorted Hsnum _ _ Na) as Hhi.
    rewrite Hlen in Hhi.
    rewrite (filter_length_perm (fun x => (x <=? a)%float) _ _ Hperm).
    rewrite (filter_length_perm (fun x => (a <=? x)%float) _ _ Hperm).
    fold n in Hhi. lia.
  - apply Nat.eqb_neq in E1.
    assert (Hmod : n mod 2 = 0).
    { pose proof (Nat.mod_upper_bound n 2). lia. }
    destruct (index_in_range (PyStd.sorted data) (n / 2 - 1))
      as [a [Ia Na]]; [lia|].
    destruct (index_in_range (PyStd.sorted data) (n / 2)) as [b [Ib Nb]];
      [lia|].
    exists a, b. rewrite Ia, Ib. cbn [bind ret].
    split; [apply (Permutation_in a (Permutation_sym Hperm)),
            (nth_error_In _ _ Na)|].
    split; [apply (Permutation_in b (Permutation_sym Hperm)),
            (nth_error_In _ _ Nb)|].
    split; [apply (strongly_sorted_nth _ _ Hsorted (n / 2 - 1) (n / 2));
            [lia|exact Na|exact Nb]|].
    split; [reflexivity|]. split; [intros Hodd; congruence|].
    pose proof (count_at_most _ Hsorted Hsnum _ _ Na) as Hlo.
    pose proof (count_at_least _ Hsorted Hsnum _ _ Nb) as Hhi.
    rewrite Hlen in Hhi.
    rewrite (filter_length_perm (fun x => (x <=? a)%float) _ _ Hperm).
    rewrite (filter_length_perm (fun x => (b <=? x)%float) _ _ Hperm).
    fold n in Hhi. lia.
Qed.

Lemma median_is_middle_witness :
  exists a b,
    In a [(-70)%float; (-71)%float; (-50)%float; (-69.5)%float] /\
    In b [(-70)%float; (-71)%float; (-50)%float; (-69.5)%float] /\
    (a <=? b)%float = true /\
    PyStd.median [(-70)%float; (-71)%float; (-50)%float; (-69.5)%float]
    = inr (if List.length [(-70)%float; (-71)%float; (-50)%float;
                           (-69.5)%float] mod 2 =? 1
           then a else ((a + b) / 2)%float) /\
    (List.length [(-70)%float; (-71)%float; (-50)%float; (-69.5)%float]
     mod 2 = 1 -> a = b) /\
    List.length [(-70)%float; (-71)%float; (-50)%float; (-69.5)%float]
    <= 2 * List.length
             (filter (fun x => (x <=? a)%float)
                     [(-70)%float; (-71)%float; (-50)%float; (-69.5)%float]) /\
    List.length [(-70)%float; (-71)%float; (-50)%float; (-69.5)%float]
    <= 2 * List.length
             (filter (fun x => (b <=? x)%float)
                     [(-70)%float; (-71)%float; (-50)%float; (-69.5)%float]).
Proof.
  apply median_is_middle.
  - discriminate.
  - repeat constructor.
Defined.

(** ** Series of alerts *)

(** X5.  With [ENABLE_TTS_ALERTS] off no series of calls of [speak]
    outputs anything or changes the alert state. *)
Theorem disabled_alerts_silent (cfg : Config) (calls : list attempt)
    (st : AlertState) :
  ENABLE_TTS_ALERTS cfg = false ->
  speak_all cfg calls st = (st, map (fun _ => []) calls).
Proof.
  intros Hoff. induction calls as [|c calls IH]; simpl; [reflexivity|].
  rewrite speak_suppressed by (unfold dispatched; rewrite Hoff; reflexivity).
  rewrite IH. reflexivity.
Qed.

Lemma disabled_alerts_silent_witness :
  speak_all
    {| THRESHOLD_ABOVE_MEDIAN_DB := 3.5; ENABLE_TTS_ALERTS := false;
       TTS_COOLDOWN_SEC := 5; LISTEN_TIME_SEC := 5 |}
    [Build_attempt 1700000000 Started "RTL S D R watcher started.";
     Build_attempt 1700000009 Started "Activity detected."]
    initial_alert_state
  = (initial_alert_state, [[]; []]).
Proof.
  apply (disabled_alerts_silent
           {| THRESHOLD_ABOVE_MEDIAN_DB := 3.5; ENABLE_TTS_ALERTS := false;
              TTS_COOLDOWN_SEC := 5; LISTEN_TIME_SEC := 5 |}).
  reflexivity.
Defined.

(** X6.  In a series of calls of [speak] each call outputs nothing, or the
    [[TTS]] line of its own message followed by the start of espeak on
    that message as a single argument, or by the line that espeak is
    missing: the message of a suppressed call is output by no later
    call. *)
Theorem alerts_never_replayed (cfg : Config) (calls : list attempt)
    (st : AlertState) :
  Forall2
    (fun c out =>
       out = [] \/
       out = [Print (String.append "[TTS] " (attempt_message c));
              Popen ["espeak"; "-s"; "170"; "-a"; "200"; attempt_message c]] \/
       out = [Print (String.append "[TTS] " (attempt_message c));
              Print "[!] espeak not found. Install with: sudo apt install espeak"])
    calls (snd (speak_all cfg calls st)).
Proof.
  revert st. induction calls as [|c calls IH]; intros st; simpl;
    [constructor|].
  destruct (dispatched cfg (attempt_time c) st) eqn:E.
  - rewrite speak_dispatched by exact E.
    specialize (IH {| last_tts_time := attempt_time c |}).
    destruct (speak_all cfg calls {| last_tts_time := attempt_time c |})
      as [st2 outs]. simpl in *.
    constructor; [|exact IH].
    destruct (attempt_espeak c); [right; left|right; right]; reflexivity.
  - rewrite speak_suppressed by exact E.
    specialize (IH st). destruct (speak_all cfg calls st) as [st2 outs].
    simpl in *. constructor; [left; reflexivity|exact IH].
Qed.

Lemma last_nonempty_default {A : Type} (x : A) (l : list A) (d d' : A) :
  last (x :: l) d = last (x :: l) d'.
Proof.
  revert x. induction l as [|y l IH]; intros x; [reflexivity|].
  change (last (y :: l) d = last (y :: l) d'). apply IH.
Qed.

(** X7.  After a series of calls of [speak] the alert state holds the time
    of the last call that was dispatched, and is unchanged when none
    was. *)
Theorem alert_state_is_last_alert (cfg : Config) (calls : list attempt)
    (st : AlertState) :
  last_tts_time (fst (speak_all cfg calls st))
  = last (alert_times cfg calls st) (last_tts_time st).
Proof.
  revert st. induction calls as [|c calls IH]; intros st; simpl;
    [reflexivity|].
  destruct (dispatched cfg (attempt_time c) st) eqn:E.
  - rewrite speak_dispatched by exact E. simpl.
    specialize (IH {| last_tts_time := attempt_time c |}).
    destruct (speak_all cfg calls {| last_tts_time := attempt_time c |})
      as [st2 outs]. simpl in *. rewrite IH.
    destruct (alert_times cfg calls {| last_tts_time := attempt_time c |});
      [reflexivity|apply last_nonempty_default].
  - rewrite speak_suppressed by exact E.
    specialize (IH st). destruct (speak_all cfg calls st) as [st2 outs].
    simpl in *. exact IH.
Qed.

(** ** One turn and one pass of the watch loop *)

Section WatchLoopFacts.

Variable cfg : Config.

Lemma sort_hits_length (hits : list (float * float)) :
  List.length (sort_hits hits) = List.length hits.
Proof. symmetry. apply Permutation_length, sort_hits_perm. Qed.

(** A turn on a sweep: nothing without a hit, and otherwise a call of
    [speak] about the first of the sorted hits. *)
Lemma watch_band_on_sweep (band_name : string) (run : check_output)
    (now : float) (espeak : popen_result) (st : AlertState)
    (freqs powers : list float) :
  scan_band run = inr (freqs, powers) ->
  exists hits,
    reported_hits cfg freqs powers = inr hits /\
    watch_band cfg band_name run now espeak st
    = inr match hits with
          | [] => (st, [])
          | h :: _ =>
              speak cfg now espeak
                    (activity_message band_name (fst h / 1000000)%float) st
          end.
Proof.
  intros Hs. destruct (detect_peaks_total cfg freqs powers) as [hits Hd].
  exists (sort_hits hits). unfold reported_hits, watch_band.
  rewrite Hs. cbn [bind ret]. rewrite Hd. cbn [bind ret].
  split; [reflexivity|].
  destruct hits as [|h0 hits]; [reflexivity|].
  pose proof (sort_hits_length (h0 :: hits)) as Hlen.
  destruct (sort_hits (h0 :: hits)) as [|[f p] rest]; [discriminate|].
  reflexivity.
Qed.

Lemma scan_band_returns (run : check_output) :
  run <> ToolNotFound ->
  exists freqs powers, scan_band run = inr (freqs, powers).
Proof.
  destruct run as [out|output|]; intros H;
    [apply scan_band_total|exists [], []; reflexivity|congruence].
Qed.

End WatchLoopFacts.

(** X8.  A turn of the watch loop returns whatever [rtl_power] printed:
    neither the median nor the first of the sorted hits can fail.  A run
    of [rtl_power] that exits with an error is a turn without output that
    leaves the alert state alone.  When [rtl_power] is not installed the
    turn raises [FileNotFoundError]: nothing in [scan_band] or in the loop
    catches it. *)
Theorem watch_band_outcomes (cfg : Config) (band_name : string)
    (now : float) (espeak : popen_result) (st : AlertState) :
  (forall out, exists st' spoken_out,
      watch_band cfg band_name (Returned out) now espeak st
      = inr (st', spoken_out)) /\
  (forall output,
      watch_band cfg band_name (CalledProcessError output) now espeak st
      = inr (st, [])) /\
  watch_band cfg band_name ToolNotFound now espeak st = inl FileNotFoundError.
Proof.
  split; [|split; reflexivity].
  intros out. destruct (scan_band_total out) as [freqs [powers Hs]].
  destruct (watch_band_on_sweep cfg band_name (Returned out) now espeak st
              freqs powers Hs) as [hits [_ Hw]].
  rewrite Hw. destruct hits as [|h hits].
  - eexists. eexists. reflexivity.
  - destruct (speak cfg now espeak
                (activity_message band_name (fst h / 1000000)%float) st)
      as [st' o].
    exists st', o. reflexivity.
Qed.



(** X10.  A pass over the bands ends at the first turn that finds
    [stop_requested] set: that band and the bands after it are not
    scanned, and the pass is the pass over the bands before it. *)
Theorem watch_pass_stops (cfg : Config) (before after : list turn)
    (t : turn) (st : AlertState) :
  turn_stop t = true ->
  watch_pass cfg (before ++ t :: after) st = watch_pass cfg before st.
Proof.
  intros Hstop. revert st.
  induction before as [|b before IH]; intros st; simpl.
  - rewrite Hstop. reflexivity.
  - destruct (turn_stop b); [reflexivity|].
    destruct (watch_band cfg (turn_band b) (turn_run b) (turn_now b)
                         (turn_espeak b) st) as [e|r1]; simpl;
      [reflexivity|].
    rewrite IH. reflexivity.
Qed.

Lemma watch_pass_stops_witness :
  watch_pass CONFIG
    ([Build_turn false "2m Ham"
        (Returned
           "2024/01/01,00:00:00,144000000,148000000,25000,160,-70.0,-71.0,-50.0,-69.5")
        1700000000 Started]
     ++ Build_turn true "70cm Ham" ToolNotFound 1700000001 Started
     :: [Build_turn false "Airband" (CalledProcessError "") 1700000002
           Started])
    initial_alert_state
  = watch_pass CONFIG
      [Build_turn false "2m Ham"
         (Returned
            "2024/01/01,00:00:00,144000000,148000000,25000,160,-70.0,-71.0,-50.0,-69.5")
         1700000000 Started]
      initial_alert_state.
Proof.
  apply watch_pass_stops. reflexivity.
Defined.

Lemma pass_calls_length (cfg : Config) (turns : list turn) :
  List.length (pass_calls cfg turns) <= List.length turns.
Proof.
  induction turns as [|t turns IH]; simpl; [lia|].
  destruct (turn_stop t); simpl; [lia|].
  destruct (bind (scan_band (turn_run t))
                 (fun sweep => reported_hits cfg (fst sweep) (snd sweep)))
    as [e|[|h hs]]; simpl; lia.
Qed.

(** A pass is the series of its calls of [speak]. *)
Lemma watch_pass_series (cfg : Config) (turns : list turn) :
  forallb tool_present turns = true ->
  forall st,
    watch_pass cfg turns st
    = inr (fst (speak_all cfg (pass_calls cfg turns) st),
           List.concat (snd (speak_all cfg (pass_calls cfg turns) st))).
Proof.
  intros Hall.
  induction turns as [|t turns IH]; intros st; simpl; [reflexivity|].
  simpl in Hall. apply andb_true_iff in Hall. destruct Hall as [Ht Hrest].
  destruct (turn_stop t); [reflexivity|].
  destruct (scan_band_returns (turn_run t)) as [freqs [powers Hs]].
  { unfold tool_present in Ht. destruct (turn_run t); congruence. }
  destruct (watch_band_on_sweep cfg (turn_band t) (turn_run t) (turn_now t)
              (turn_espeak t) st freqs powers Hs) as [hits [Hr Hw]].
  rewrite Hw, Hs. cbn [bind ret fst snd]. rewrite Hr.
  destruct hits as [|h hits]; cbn [fst snd].
  - rewrite (IH Hrest st). reflexivity.
  - cbn [speak_all attempt_time attempt_espeak attempt_message].
    destruct (speak cfg (turn_now t) (turn_espeak t)
                (activity_message (turn_band t) (fst h / 1000000)%float) st)
      as [st1 out1]. cbn [fst snd].
    rewrite (IH Hrest st1).
    destruct (speak_all cfg (pass_calls cfg turns) st1) as [st2 outs].
    reflexivity.
Qed.

(** X11.  A pass over the bands in which [rtl_power] is installed is the
    series of calls of [speak] for the bands with a hit, in the order of
    the bands: it returns the alert state and the output of that series,
    makes at most one call for each band, and so no two alerts of a pass
    come less than [TTS_COOLDOWN_SEC] seconds after one another. *)
Theorem watch_pass_is_speak_series (cfg : Config) (turns : list turn)
    (st : AlertState) :
  forallb tool_present turns = true ->
  watch_pass cfg turns st
  = inr (fst (speak_all cfg (pass_calls cfg turns) st),
         List.concat (snd (speak_all cfg (pass_calls cfg turns) st))) /\
  List.length (pass_calls cfg turns) <= List.length turns /\
  Sorted (fun a b => (b - a <? TTS_COOLDOWN_SEC cfg)%float = false)
         (last_tts_time st :: alert_times cfg (pass_calls cfg turns) st).
Proof.
  intros Hall. split; [apply watch_pass_series, Hall|].
  split; [apply pass_calls_length|apply alert_times_spaced].
Qed.

Lemma watch_pass_is_speak_series_witness :
  watch_pass CONFIG
    [Build_turn false "2m Ham"
       (Returned
          "2024/01/01,00:00:00,144000000,148000000,25000,160,-70.0,-71.0,-50.0,-69.5")
       1700000000 Started;
     Build_turn false "Airband" (CalledProcessError "") 1700000002 Started]
    initial_alert_state
  = inr ({| last_tts_time := 1700000000 |},
         [Print "[TTS] Activity detected. 2m Ham. 144.050 megahertz.";
          Popen ["espeak"; "-s"; "170"; "-a"; "200";
                 "Activity detected. 2m Ham. 144.050 megahertz."]]).
Proof.
  rewrite (proj1 (watch_pass_is_speak_series CONFIG
                    [Build_turn false "2m Ham"
                       (Returned
                          "2024/01/01,00:00:00,144000000,148000000,25000,160,-70.0,-71.0,-50.0,-69.5")
                       1700000000 Started;
                     Build_turn false "Airband" (CalledProcessError "")
                       1700000002 Started]
                    initial_alert_state eq_refl)).
  vm_compute. reflexivity.
Defined.

Lemma watch_band_returns (cfg : Config) (t : turn) (st : AlertState) :
  tool_present t = true ->
  exists r,
    watch_band cfg (turn_band t) (turn_run t) (turn_now t) (turn_espeak t) st
    = inr r.
Proof.
  intros Ht. destruct (scan_band_returns (turn_run t)) as [freqs [powers Hs]].
  { unfold tool_present in Ht. destruct (turn_run t); congruence. }
  destruct (watch_band_on_sweep cfg (turn_band t) (turn_run t) (turn_now t)
              (turn_espeak t) st freqs powers Hs) as [hits [_ Hw]].
  eexists. exact Hw.
Qed.

(** X12.  A pass over the bands raises [FileNotFoundError] at the first
    band it scans for which [rtl_power] is not installed: the pass and the
    watch loop end there, with no result. *)
Theorem watch_pass_tool_missing (cfg : Config) (before after : list turn)
    (t : turn) (st : AlertState) :
  forallb tool_present before = true ->
  forallb (fun b => negb (turn_stop b)) before = true ->
  turn_stop t = false -> turn_run t = ToolNotFound ->
  watch_pass cfg (before ++ t :: after) st = inl FileNotFoundError.
Proof.
  intros Hpresent Hgo Hstop Hrun. revert st.
  induction before as [|b before IH]; intros st; simpl.
  - rewrite Hstop. unfold watch_band. rewrite Hrun. reflexivity.
  - simpl in Hpresent, Hgo.
    apply andb_true_iff in Hpresent. destruct Hpresent as [Hb Hpresent].
    apply andb_true_iff in Hgo. destruct Hgo as [Hgb Hgo].
    apply negb_true_iff in Hgb. rewrite Hgb.
    destruct (watch_band_returns cfg b st Hb) as [r1 Hr1].
    rewrite Hr1. cbn [bind]. rewrite (IH Hpresent Hgo). reflexivity.
Qed.

Lemma watch_pass_tool_missing_witness :
  watch_pass CONFIG
    ([Build_turn false "2m Ham" (CalledProcessError "") 1700000000 Started]
     ++ Build_turn false "70cm Ham" ToolNotFound 1700000001 Started
     :: [Build_turn false "Airband" (CalledProcessError "") 1700000002
           Started])
    initial_alert_state
  = inl FileNotFoundError.
Proof.
  apply watch_pass_tool_missing; reflexivity.
Defined.

(** ** The listener returns *)

(** The deadline: within six statements of [listen_to_frequency] after the
    clock has passed it, from any point of the loop. *)
Lemma listener_returns_witness :
  at_point
    (listen_to_frequency 5
       [Listener; Listener; Listener; Listener; Listener; Listener]
       (listen_to_frequency 5
          [Listener; Listener; Listener; Listener; Listener; Listener;
           Listener; Clock 1700000006]
          (on_call [1] 2 1700000000 false (Some 1))))
  = Done.
Proof.
  apply listener_returns.
  - vm_compute. reflexivity.
  - vm_compute. lia.
Defined.

Lemma stopped_step (seconds : float) (m : Machine) (n : nat) :
  stop_requested m = true ->
  statements_left_stopped (at_point m) <= S n -> S n <= 6 ->
  stop_requested (step_listener seconds m) = true /\
  statements_left_stopped (at_point (step_listener seconds m)) <= n.
Proof.
  intros Hstop Hleft Hn. unfold step_listener.
  destruct (at_point m) eqn:Ept; simpl in Hleft; try lia.
  - destruct (clock m - t0 m <? seconds)%float; simpl;
      split; try exact Hstop; lia.
  - rewrite Hstop. simpl. split; [exact Hstop|lia].
  - destruct (owned_and_running m); simpl; split; try exact Hstop; lia.
  - simpl. split; [exact Hstop|lia].
  - destruct (owned_and_running m); simpl; split; try exact Hstop; lia.
  - unfold killpg. destruct (is_alive p m); simpl; split;
      try exact Hstop; lia.
  - rewrite Ept. simpl. split; [exact Hstop|lia].
Qed.

Lemma stopped_steps (seconds : float) (n : nat) :
  forall m,
    stop_requested m = true ->
    statements_left_stopped (at_point m) <= n -> n <= 6 ->
    at_point (listen_to_frequency seconds (repeat Listener n) m) = Done.
Proof.
  unfold listen_to_frequency.
  induction n as [|n IH]; intros m Hstop Hleft Hn; simpl.
  - destruct (at_point m); simpl in Hleft; try lia. reflexivity.
  - destruct (stopped_step seconds m n Hstop Hleft Hn) as [Hstop' Hleft'].
    apply IH; [exact Hstop'|exact Hleft'|lia].
Qed.

(** X14.  Once [stop_requested] is set the listener, wherever it is in its
    loop, returns within six statements, whatever the clock reads. *)
Theorem listener_returns_when_stopped (seconds : float) (m : Machine) :
  stop_requested m = true ->
  statements_left_stopped (at_point m) <= 6 ->
  at_point
    (listen_to_frequency seconds
       [Listener; Listener; Listener; Listener; Listener; Listener] m)
  = Done.
Proof.
  intros Hstop Hleft.
  apply (stopped_steps seconds 6 m Hstop Hleft). lia.
Qed.

Lemma listener_returns_when_stopped_witness :
  at_point
    (listen_to_frequency 5
       [Listener; Listener; Listener; Listener; Listener; Listener]
       (listen_to_frequency 5
          [Listener; Listener; Listener; Listener; Listener; Listener;
           CtrlC]
          (on_call [1] 2 1700000000 false (Some 1))))
  = Done.
Proof.
  apply listener_returns_when_stopped.
  - vm_compute. reflexivity.
  - vm_compute. lia.
Defined.

Section ExitedPipeline.

Variable seconds : float.
Variable fresh : pid.

(** The listener owns pipeline [fresh], which has exited. *)
Let exited (m : Machine) : Prop :=
  current_audio_proc m = Some fresh /\
  is_alive fresh m = false /\
  (forall p, at_point m = KillOwn p -> p = fresh).

Lemma exited_step (m : Machine) (n : nat) :
  exited m ->
  statements_left_exited (at_point m) <= S n -> S n <= 6 ->
  exited (step_listener seconds m) /\
  statements_left_exited (at_point (step_listener seconds m)) <= n /\
  performed (step_listener seconds m) = performed m.
Proof.
  intros [Hc [Ha Hk]] Hleft Hn.
  assert (Ho : owned_and_running m = None).
  { unfold owned_and_running. rewrite Hc, Ha. reflexivity. }
  unfold exited, step_listener.
  destruct (at_point m) eqn:Ept; simpl in Hleft; try lia.
  - destruct (clock m - t0 m <? seconds)%float; simpl;
      (split; [split; [exact Hc|split; [exact Ha|discriminate]]|]);
      split; try reflexivity; lia.
  - destruct (stop_requested m); simpl;
      (split; [split; [exact Hc|split; [exact Ha|discriminate]]|]);
      split; try reflexivity; lia.
  - rewrite Ho. simpl.
    split; [split; [exact Hc|split; [exact Ha|discriminate]]|].
    split; [lia|reflexivity].
  - simpl. split; [split; [exact Hc|split; [exact Ha|discriminate]]|].
    split; [lia|reflexivity].
  - rewrite Ho. simpl.
    split; [split; [exact Hc|split; [exact Ha|discriminate]]|].
    split; [lia|reflexivity].
  - rewrite (Hk p eq_refl). unfold killpg. rewrite Ha. simpl.
    split; [split; [exact Hc|split; [exact Ha|discriminate]]|].
    split; [lia|reflexivity].
  - rewrite Ept. simpl.
    split; [split; [exact Hc|split; [exact Ha|discriminate]]|].
    split; [lia|reflexivity].
Qed.

Lemma exited_steps (n : nat) :
  forall m,
    exited m ->
    statements_left_exited (at_point m) <= n -> n <= 6 ->
    at_point (listen_to_frequency seconds (repeat Listener n) m) = Done /\
    performed (listen_to_frequency seconds (repeat Listener n) m)
    = performed m.
Proof.
  unfold listen_to_frequency.
  induction n as [|n IH]; intros m Hex Hleft Hn; simpl.
  - destruct (at_point m); simpl in Hleft; try lia. split; reflexivity.
  - destruct (exited_step m n Hex Hleft Hn) as [Hex' [Hleft' Hperf]].
    destruct (IH _ Hex' Hleft') as [Hd Hp]; [lia|].
    split; [exact Hd|]. rewrite Hp. exact Hperf.
Qed.

End ExitedPipeline.

(** X15.  When, at some moment of a call, the listener is in its loop and
    the pipeline it started has exited, it returns within six statements
    and sends no signal any more: a pipeline that has exited is left
    alone. *)
Theorem listener_returns_when_exited (seconds : float)
    (schedule : list happening) (running : list pid) (fresh : pid)
    (now : float) (stop : bool) (owned : option pid) :
  well_formed (on_call running fresh now stop owned) ->
  statements_left_exited
    (at_point (listen_to_frequency seconds schedule
                 (on_call running fresh now stop owned))) <= 6 ->
  is_alive fresh (listen_to_frequency seconds schedule
                    (on_call running fresh now stop owned)) = false ->
  at_point
    (listen_to_frequency seconds
       [Listener; Listener; Listener; Listener; Listener; Listener]
       (listen_to_frequency seconds schedule
          (on_call running fresh now stop owned))) = Done /\
  performed
    (listen_to_frequency seconds
       [Listener; Listener; Listener; Listener; Listener; Listener]
       (listen_to_frequency seconds schedule
          (on_call running fresh now stop owned)))
  = performed (listen_to_frequency seconds schedule
                 (on_call running fresh now stop owned)).
Proof.
  intros [_ Hwf] Hleft Hdead. simpl in Hwf.
  assert (Holder : forall p, owned = Some p -> p < fresh).
  { intros p Hp. rewrite Hp in Hwf. exact Hwf. }
  assert (Hinit : listener_invariant owned fresh
                    (on_call running fresh now stop owned)).
  { unfold listener_invariant. simpl. repeat split. }
  pose proof (call_keeps_invariant seconds owned fresh Holder schedule _ Hinit)
    as Hinv.
  set (m := listen_to_frequency seconds schedule
              (on_call running fresh now stop owned)) in *.
  apply (exited_steps seconds fresh 6 m); [|exact Hleft|lia].
  unfold listener_invariant in Hinv.
  split; [|split; [exact Hdead|]].
  - destruct (at_point m); simpl in Hleft; try lia;
      try (destruct Hinv as [Hc _]; exact Hc).
    destruct Hinv as [_ [Hc _]]. exact Hc.
  - intros p Hp. rewrite Hp in Hinv. destruct Hinv as [Hq _]. exact Hq.
Qed.

Lemma listener_returns_when_exited_witness :
  at_point
    (listen_to_frequency 5
       [Listener; Listener; Listener; Listener; Listener; Listener]
       (listen_to_frequency 5
          [Listener; Listener; Listener; Listener; Listener; Exits 2]
          (on_call [1] 2 1700000000 false (Some 1)))) = Done /\
  performed
    (listen_to_frequency 5
       [Listener; Listener; Listener; Listener; Listener; Listener]
       (listen_to_frequency 5
          [Listener; Listener; Listener; Listener; Listener; Exits 2]
          (on_call [1] 2 1700000000 false (Some 1))))
  = performed
      (listen_to_frequency 5
         [Listener; Listener; Listener; Listener; Listener; Exits 2]
         (on_call [1] 2 1700000000 false (Some 1))).
Proof.
  apply listener_returns_when_exited.
  - split; [repeat constructor|]. simpl. lia.
  - vm_compute. lia.
  - vm_compute. reflexivity.
Defined.

(** ** What the listener touches *)

Lemma step_alive_within (seconds : float) (owned : option pid) (fresh : pid)
    (known : list pid) (m : Machine) (h : happening) :
  listener_invariant owned fresh m ->
  incl (alive m) (known ++ [fresh]) ->
  incl (alive (step seconds m h)) (known ++ [fresh]).
Proof.
  intros Hinv Hin. destruct h; simpl; try exact Hin.
  - unfold step_listener. unfold listener_invariant in Hinv.
    destruct (at_point m); simpl; try exact Hin.
    + destruct (owned_and_running m); exact Hin.
    + unfold killpg. destruct (is_alive p m); exact Hin.
    + destruct Hinv as [_ [Hn _]]. rewrite Hn.
      intros q Hq. apply in_app_or in Hq. destruct Hq as [Hq | Hq].
      * apply Hin, Hq.
      * apply in_or_app. right. exact Hq.
    + destruct (clock m - t0 m <? seconds)%float; exact Hin.
    + destruct (stop_requested m); exact Hin.
    + destruct (owned_and_running m); exact Hin.
    + destruct (owned_and_running m); exact Hin.
    + unfold killpg. destruct (is_alive p m); exact Hin.
  - intros q Hq. apply filter_In in Hq. apply Hin, Hq.
Qed.

Lemma call_alive_within (seconds : float) (owned : option pid) (fresh : pid)
    (known : list pid) (schedule : list happening) :
  (forall p, owned = Some p -> p < fresh) ->
  forall m,
    listener_invariant owned fresh m ->
    incl (alive m) (known ++ [fresh]) ->
    incl (alive (listen_to_frequency seconds schedule m)) (known ++ [fresh]).
Proof.
  intros Holder. unfold listen_to_frequency.
  induction schedule as [|h schedule IH]; intros m Hinv Hin; simpl;
    [exact Hin|].
  apply IH.
  - apply step_keeps_invariant; assumption.
  - apply step_alive_within with (owned := owned); assumption.
Qed.

(** X16.  Under every schedule a call of [listen_to_frequency] does at
    most three things to process groups, and only to the pipeline it found
    in [current_audio_proc] and to the one it starts: SIGTERM to the
    former, the start of the latter, SIGTERM to the latter.  It starts no
    second pipeline, signals no other process group, and no pipeline is
    alive that was not alive at the call, but its own. *)
Theorem listener_touches_only_its_pipelines (seconds : float)
    (schedule : list happening) (running : list pid) (fresh : pid)
    (now : float) (stop : bool) (owned : option pid) :
  well_formed (on_call running fresh now stop owned) ->
  (exists before started after,
      performed (listen_to_frequency seconds schedule
                   (on_call running fresh now stop owned))
      = before ++ started ++ after /\
      (before = [] \/ exists p, owned = Some p /\ before = [Sigterm p]) /\
      (started = [] \/ started = [Start fresh]) /\
      (after = [] \/ (started = [Start fresh] /\ after = [Sigterm fresh]))) /\
  incl (alive (listen_to_frequency seconds schedule
                 (on_call running fresh now stop owned)))
       (running ++ [fresh]).
Proof.
  intros [_ Hwf]. simpl in Hwf.
  assert (Holder : forall p, owned = Some p -> p < fresh).
  { intros p Hp. rewrite Hp in Hwf. exact Hwf. }
  assert (Hinit : listener_invariant owned fresh
                    (on_call running fresh now stop owned)).
  { unfold listener_invariant. simpl. repeat split. }
  split.
  - pose proof (call_keeps_invariant seconds owned fresh Holder schedule _
                  Hinit) as Hinv.
    set (m := listen_to_frequency seconds schedule
                (on_call running fresh now stop owned)) in *.
    assert (Hprev : forall before,
               previous_handled owned m before ->
               before = [] \/ exists p, owned = Some p /\ before = [Sigterm p]).
    { unfold previous_handled. intros before Hb. destruct owned as [p|].
      - destruct Hb as [Hb | [Hb _]]; [right; exists p; auto|left; exact Hb].
      - left. exact Hb. }
    unfold listener_invariant in Hinv.
    destruct (at_point m).
    + destruct Hinv as [_ [_ Hp]]. exists [], [], []. rewrite Hp. auto.
    + destruct Hinv as [_ [_ [_ Hp]]]. exists [], [], []. rewrite Hp. auto.
    + destruct Hinv as [_ [_ Hb]]. exists (performed m), [], [].
      rewrite !app_nil_r. auto.
    + destruct Hinv as [_ [before [Hp Hb]]].
      exists before, [Start fresh], []. rewrite Hp. auto.
    + destruct Hinv as [_ [before [Hp Hb]]].
      exists before, [Start fresh], []. rewrite Hp. auto.
    + destruct Hinv as [_ [before [Hp Hb]]].
      exists before, [Start fresh], []. rewrite Hp. auto.
    + destruct Hinv as [_ [before [Hp Hb]]].
      exists before, [Start fresh], []. rewrite Hp. auto.
    + destruct Hinv as [_ [before [Hp Hb]]].
      exists before, [Start fresh], []. rewrite Hp. auto.
    + destruct Hinv as [_ [before [Hp Hb]]].
      exists before, [Start fresh], []. rewrite Hp. auto.
    + destruct Hinv as [_ [_ [before [Hp Hb]]]].
      exists before, [Start fresh], []. rewrite Hp. auto.
    + destruct Hinv as [_ [before [after [Hp [Hb Ha]]]]].
      exists before, [Start fresh], after. rewrite Hp.
      split; [reflexivity|]. split; [auto|]. split; [auto|].
      destruct Ha as [Ha | [Ha _]]; [right; auto|left; exact Ha].
  - apply call_alive_within with (owned := owned); try assumption.
    simpl. apply incl_appl, incl_refl.
Qed.

Lemma listener_touches_only_its_pipelines_witness :
  (exists before started after,
      performed
        (listen_to_frequency 5
           [Listener; Listener; Listener; Exits 1; Listener; CtrlC;
            Listener; Listener; Listener; Listener]
           (on_call [1] 2 1700000000 false (Some 1)))
      = before ++ started ++ after /\
      (before = [] \/ exists p, Some 1 = Some p /\ before = [Sigterm p]) /\
      (started = [] \/ started = [Start 2]) /\
      (after = [] \/ (started = [Start 2] /\ after = [Sigterm 2]))) /\
  incl (alive
          (listen_to_frequency 5
             [Listener; Listener; Listener; Exits 1; Listener; CtrlC;
              Listener; Listener; Listener; Listener]
             (on_call [1] 2 1700000000 false (Some 1))))
       ([1] ++ [2]).
Proof.
  apply listener_touches_only_its_pipelines.
  split; [repeat constructor|]. simpl. lia.
Defined.

(** ** The frequency given to the tuner *)

Section FrequencyText.

Lemma digit_char_is_digit (r : Z) : is_digit (digit_char (r mod 10)) = true.
Proof.
  unfold is_digit, digit_char.
  pose proof (Z.mod_pos_bound r 10 eq_refl) as Hb.
  rewrite nat_ascii_embedding by lia.
  apply andb_true_iff. split; apply Nat.leb_le; lia.
Qed.

Lemma fraction_digits_length (digits : nat) (r : Z) :
  String.length (fraction_digits digits r) = digits.
Proof.
  induction digits as [|digits IH]; simpl; [reflexivity|].
  rewrite IH. reflexivity.
Qed.

Lemma fraction_digits_all (digits : nat) (r : Z) :
  all_digits (fraction_digits digits r) = true.
Proof.
  induction digits as [|digits IH]; [reflexivity|].
  cbn [fraction_digits all_digits].
  rewrite digit_char_is_digit, IH. reflexivity.
Qed.

Lemma integer_digits_shape (q : Z) :
  integer_digits q <> EmptyString /\ all_digits (integer_digits q) = true.
Proof.
  unfold integer_digits. split; [|apply fraction_digits_all].
  destruct (Z.to_nat (Z.log2 q)) as [|fuel]; cbn [decimal_size].
  - discriminate.
  - destruct (q <? 10)%Z; discriminate.
Qed.

End FrequencyText.

(** X17.  The frequency [hz_to_mhz_str] hands to the tuner is, for a
    frequency that is a finite number, an optional minus sign, the whole
    megahertz in digits, a point, exactly six digits, and [M]; for a
    frequency that is not, it is [nanM], [infM] or [-infM]. *)
Theorem hz_to_mhz_str_shape (freq_hz : float) :
  hz_to_mhz_str freq_hz = "nanM" \/
  hz_to_mhz_str freq_hz = "infM" \/
  hz_to_mhz_str freq_hz = "-infM" \/
  exists negative whole fraction,
    hz_to_mhz_str freq_hz
    = String.append
        (String.append (sign_text negative)
           (String.append whole (String "." fraction))) "M" /\
    whole <> EmptyString /\ all_digits whole = true /\
    String.length fraction = 6 /\ all_digits fraction = true.
Proof.
  unfold hz_to_mhz_str, format_fixed.
  destruct (Prim2SF (freq_hz / 1000000)) as [s|s| |s m e].
  - right. right. right.
    exists s, (integer_digits (0 / 10 ^ Z.of_nat 6)), (fraction_digits 6 0).
    split; [reflexivity|].
    destruct (integer_digits_shape (0 / 10 ^ Z.of_nat 6)) as [Hne Hall].
    split; [exact Hne|]. split; [exact Hall|].
    split; [apply fraction_digits_length|apply fraction_digits_all].
  - destruct s; [right; right; left|right; left]; reflexivity.
  - left. reflexivity.
  - right. right. right.
    exists s, (integer_digits (scaled 6 m e / 10 ^ Z.of_nat 6)),
           (fraction_digits 6 (scaled 6 m e)).
    split; [reflexivity|].
    destruct (integer_digits_shape (scaled 6 m e / 10 ^ Z.of_nat 6))
      as [Hne Hall].
    split; [exact Hne|]. split; [exact Hall|].
    split; [apply fraction_digits_length|apply fraction_digits_all].
Qed.

(** ** Ties between hits *)

Section Ties.

Lemma SFltb_leb_trans (x y z : spec_float) :
  SFltb x y = true -> SFleb y z = true -> SFltb x z = true.
Proof.
  unfold SFltb, SFleb.
  destruct x as [sx|sx| |sx mx ex], y as [sy|sy| |sy my ey],
           z as [sz|sz| |sz mz ez]; simpl;
    try discriminate; try reflexivity;
    try (destruct sx; discriminate); try (destruct sx; reflexivity);
    try (destruct sy; discriminate); try (destruct sy; reflexivity);
    try (destruct sz; discriminate); try (destruct sz; reflexivity);
    try (destruct sx, sy; discriminate); try (destruct sy, sz; discriminate);
    try (destruct sx, sz; simpl; congruence);
    try (destruct sx, sy, sz; simpl; congruence).
  change (Pos.compare_cont Eq) with Pos.compare.
  destruct sx, sy, sz; simpl; try congruence;
    destruct (Z.compare_spec ex ey), (Z.compare_spec ey ez),
             (Z.compare_spec ex ez); try congruence; try lia;
    destruct (Pos.compare_spec mx my), (Pos.compare_spec my mz),
             (Pos.compare_spec mx mz); simpl; try congruence; try lia.
Qed.

(** [x < y <= z] gives [x < z]. *)
Lemma ltb_leb_trans (x y z : float) :
  (x <? y)%float = true -> (y <=? z)%float = true -> (x <? z)%float = true.
Proof. rewrite !ltb_spec, leb_spec. apply SFltb_leb_trans. Qed.

(** The first of the sorted hits is the first hit that no hit exceeds:
    the hits in front of it are weaker, the hits after it are not
    stronger. *)
Lemma sort_hits_first (hits : list (float * float)) :
  Forall (fun k => not_nan (snd k)) hits ->
  forall h rest,
    sort_hits hits = h :: rest ->
    exists l1 l2,
      hits = l1 ++ h :: l2 /\
      Forall (fun k => (snd k <? snd h)%float = true) l1 /\
      Forall (fun k => (snd h <? snd k)%float = false) l2.
Proof.
  induction hits as [|x hits IH]; intros Hnum h rest Hs; [discriminate|].
  inversion Hnum as [|? ? Hx Hnum']; subst.
  simpl in Hs. destruct (sort_hits hits) as [|h' rest'] eqn:E.
  - simpl in Hs. injection Hs as <- <-.
    assert (hits = []) as ->.
    { pose proof (Permutation_length (sort_hits_perm hits)) as Hl.
      rewrite E in Hl. destruct hits; [reflexivity|discriminate]. }
    exists [], []. repeat split; constructor.
  - destruct (IH Hnum' h' rest' eq_refl) as [l1 [l2 [Hh [H1 H2]]]].
    simpl in Hs. destruct (snd x <? snd h')%float eqn:Elt.
    + injection Hs as <- <-.
      exists (x :: l1), l2. split; [rewrite Hh; reflexivity|].
      split; [constructor; assumption|exact H2].
    + injection Hs as <- <-.
      exists [], hits. split; [reflexivity|]. split; [constructor|].
      assert (Hh' : not_nan (snd h')).
      { rewrite Forall_forall in Hnum'. apply Hnum'. rewrite Hh.
        apply in_or_app. right. left. reflexivity. }
      rewrite Hh. apply Forall_app. split; [|constructor].
      * rewrite Forall_forall in *. intros k Hk.
        destruct (snd x <? snd k)%float eqn:Exk; [|reflexivity].
        rewrite (ltb_trans _ _ _ Exk (H1 k Hk)) in Elt. discriminate.
      * exact Elt.
      * rewrite Forall_forall in *. intros k Hk.
        destruct (snd x <? snd k)%float eqn:Exk; [|reflexivity].
        assert (Hkn : not_nan (snd k)).
        { apply Hnum'. rewrite Hh. apply in_or_app. right. right. exact Hk. }
        rewrite (ltb_leb_trans _ _ _ Exk
                   (not_ltb_leb _ _ Hkn Hh' (H2 k Hk))) in Elt.
        discriminate.
Qed.

End Ties.

(** X18.  The hit the watch loop speaks of is the first, in the order of
    the sweep, among the hits of greatest power: every hit at a lower
    frequency position is weaker, and no hit after it is stronger. *)
Theorem strongest_hit_is_first_of_ties (cfg : Config)
    (freqs powers : list float) (h : float * float)
    (rest : list (float * float)) :
  reported_hits cfg freqs powers = inr (h :: rest) ->
  exists lower higher,
    detect_peaks cfg freqs powers = inr (lower ++ h :: higher) /\
    Forall (fun k => (snd k <? snd h)%float = true) lower /\
    Forall (fun k => (snd h <? snd k)%float = false) higher.
Proof.
  intros Hr. unfold reported_hits in Hr.
  destruct (detect_peaks_total cfg freqs powers) as [hits Hd].
  rewrite Hd in Hr. simpl in Hr. injection Hr as Hsort.
  destruct (sort_hits_first hits (detect_peaks_numbers cfg _ _ _ Hd) h rest
              Hsort) as [l1 [l2 [Hh [H1 H2]]]].
  exists l1, l2. rewrite Hd, Hh. auto.
Qed.

Lemma strongest_hit_is_first_of_ties_witness :
  exists lower higher,
    detect_peaks CONFIG
      [144000000%float; 144025000%float; 144050000%float; 144075000%float;
       144100000%float]
      [0%float; 10%float; 0%float; 5%float; 10%float]
    = inr (lower ++ (144025000%float, 10%float) :: higher) /\
    Forall (fun k => (snd k <? snd (144025000%float, 10%float))%float = true)
           lower /\
    Forall (fun k => (snd (144025000%float, 10%float) <? snd k)%float = false)
           higher.
Proof.
  apply (strongest_hit_is_first_of_ties CONFIG _ _ _
           [(144100000%float, 10%float)]).
  vm_compute. reflexivity.
Defined.

(** ** The whole run *)

Section Run.

Variable cfg : Config.

Lemma speak_all_app (calls1 calls2 : list attempt) (st : AlertState) :
  speak_all cfg (calls1 ++ calls2) st
  = (fst (speak_all cfg calls2 (fst (speak_all cfg calls1 st))),
     snd (speak_all cfg calls1 st)
     ++ snd (speak_all cfg calls2 (fst (speak_all cfg calls1 st)))).
Proof.
  revert st. induction calls1 as [|c calls1 IH]; intros st; simpl.
  - destruct (speak_all cfg calls2 st). reflexivity.
  - destruct (speak cfg (attempt_time c) (attempt_espeak c)
                    (attempt_message c) st) as [st1 out1].
    rewrite (IH st1).
    destruct (speak_all cfg calls1 st1) as [st2 outs1]. simpl.
    destruct (speak_all cfg calls2 st2) as [st3 outs2]. reflexivity.
Qed.

(** The passes are the series of their calls of [speak]. *)
Lemma watch_passes_series (passes : list pass) :
  forallb (fun p => forallb tool_present (pass_turns p)) passes = true ->
  forall st,
    watch_passes cfg passes st
    = inr (fst (speak_all cfg (passes_calls cfg passes) st),
           List.concat (snd (speak_all cfg (passes_calls cfg passes) st))).
Proof.
  intros Hall.
  induction passes as [|p passes IH]; intros st; simpl; [reflexivity|].
  simpl in Hall. apply andb_true_iff in Hall. destruct Hall as [Hp Hrest].
  destruct (pass_stop p); [reflexivity|].
  rewrite (watch_pass_series cfg (pass_turns p) Hp st). cbn [bind fst snd].
  rewrite (IH Hrest). cbn [bind ret fst snd].
  rewrite speak_all_app. cbn [fst snd].
  rewrite concat_app. reflexivity.
Qed.

End Run.

(** X19.  A run of [main] in which [rtl_power] is installed is one series
    of calls of [speak]: the start-up announcement, then, pass after pass
    and band after band, one call for each band with a hit.  So over the
    whole run no alert comes less than [TTS_COOLDOWN_SEC] seconds after
    the alert before it, the start-up announcement included. *)
Theorem main_is_speak_series (cfg : Config) (now : float)
    (espeak : popen_result) (passes : list pass) :
  forallb (fun p => forallb tool_present (pass_turns p)) passes = true ->
  main cfg now espeak passes
  = inr (fst (speak_all cfg (main_calls cfg now espeak passes)
                        initial_alert_state),
         List.concat (snd (speak_all cfg (main_calls cfg now espeak passes)
                                     initial_alert_state))) /\
  Sorted (fun a b => (b - a <? TTS_COOLDOWN_SEC cfg)%float = false)
         (alert_times cfg (main_calls cfg now espeak passes)
                      initial_alert_state).
Proof.
  intros Hall. split.
  - unfold main, main_calls.
    cbn [speak_all attempt_time attempt_espeak attempt_message].
    destruct (speak cfg now espeak "RTL S D R watcher started."
                    initial_alert_state) as [st0 out0]. cbn [fst snd].
    rewrite (watch_passes_series cfg passes Hall st0). cbn [bind ret fst snd].
    destruct (speak_all cfg (passes_calls cfg passes) st0) as [st1 outs].
    reflexivity.
  - pose proof (alert_times_spaced cfg (main_calls cfg now espeak passes)
                  initial_alert_state) as H.
    inversion H; assumption.
Qed.

Lemma main_is_speak_series_witness :
  main CONFIG 1700000000 Started
    [Build_pass false
       [Build_turn false "2m Ham"
          (Returned
             "2024/01/01,00:00:00,144000000,148000000,25000,160,-70.0,-71.0,-50.0,-69.5")
          1700000002 Started];
     Build_pass false
       [Build_turn false "2m Ham"
          (Returned
             "2024/01/01,00:00:00,144000000,148000000,25000,160,-70.0,-71.0,-50.0,-69.5")
          1700000006 Started];
     Build_pass true []]
  = inr ({| last_tts_time := 1700000006 |},
         [Print "[TTS] RTL S D R watcher started.";
          Popen ["espeak"; "-s"; "170"; "-a"; "200";
                 "RTL S D R watcher started."];
          Print "[TTS] Activity detected. 2m Ham. 144.050 megahertz.";
          Popen ["espeak"; "-s"; "170"; "-a"; "200";
                 "Activity detected. 2m Ham. 144.050 megahertz."]]).
Proof.
  rewrite (proj1 (main_is_speak_series CONFIG 1700000000 Started
                    [Build_pass false
                       [Build_turn false "2m Ham"
                          (Returned
                             "2024/01/01,00:00:00,144000000,148000000,25000,160,-70.0,-71.0,-50.0,-69.5")
                          1700000002 Started];
                     Build_pass false
                       [Build_turn false "2m Ham"
                          (Returned
                             "2024/01/01,00:00:00,144000000,148000000,25000,160,-70.0,-71.0,-50.0,-69.5")
                          1700000006 Started];
                     Build_pass true []]
                    eq_refl)).
  vm_compute. reflexivity.
Defined.
